(** * whisper-lrc: input resolution, batch orchestration and formatting

    A shallow embedding of the Go sources of whisper-lrc

      - cmd/root.go                    ([runExtract], [getOutputPath],
                                        [sanitizeFilename])
      - internal/input  (handler)      ([Resolve], [resolveLocalFile],
                                        [downloadDirect], [getAudioExtension],
                                        [downloadWithYtDlp], [isYouTubeURL])
      - internal/output (formatters)   ([LRCFormatter.Format],
                                        [SRTFormatter.Format])
      - internal/progress/tracker.go   ([Tracker], [Start], [Stop],
                                        [render], [truncate])
      - internal/whisper (client)      ([Transcribe])
      - internal/input, earlier state  ([downloadDirect])

    Go strings are byte strings and are modelled by [string]; Go's [int] is
    modelled by [Z]; [float64] by the kernel's binary64 floats.  The file
    system, the network and the yt-dlp subprocess are an explicit [World] of
    oracles; what the program does to them is recorded in a [State]. *)

From Stdlib Require Import ZArith String Ascii List Bool Lia.
From Stdlib Require Import PrimFloat FloatOps SpecFloat DecimalString.
From stdpp Require Import gmap strings list.
From Equations.Prop Require Import Equations Logic.

Open Scope string_scope.
Open Scope Z_scope.

(** ** Go's [strings] package, on byte strings *)

Module GoStrings.

Definition nl : string := String "010" EmptyString.

(** [strings.HasPrefix] *)
Definition HasPrefix (s p : string) : bool := String.prefix p s.

(** [strings.HasSuffix]:
    [len(s) >= len(suffix) && s[len(s)-len(suffix):] == suffix] *)
Definition HasSuffix (s suffix : string) : bool :=
  let n := String.length s in
  let k := String.length suffix in
  (k <=? n)%nat && String.eqb (substring (n - k) k s) suffix.

(** [strings.Contains] *)
Fixpoint Contains (s substr : string) : bool :=
  String.prefix substr s ||
  match s with
  | EmptyString => false
  | String _ s' => Contains s' substr
  end.

(** [strings.Index]: the byte offset of the first occurrence, or -1. *)
Fixpoint Index (s substr : string) : Z :=
  if String.prefix substr s then 0
  else match s with
       | EmptyString => -1
       | String _ s' => let i := Index s' substr in
                        if i <? 0 then -1 else i + 1
       end.

(** The slice [s[:i]]. *)
Definition slice_to (s : string) (i : Z) : string :=
  substring 0 (Z.to_nat i) s.

Definition lower_ascii (c : ascii) : ascii :=
  let n := nat_of_ascii c in
  if ((65 <=? n) && (n <=? 90))%nat then ascii_of_nat (n + 32) else c.

(** [strings.ToLower], on the ASCII letters.  Bytes above 127 are left as
    they are: Go lowers the runes they encode, and only U+212A and U+0130
    lower to an ASCII letter (k and i). *)
Fixpoint ToLower (s : string) : string :=
  match s with
  | EmptyString => EmptyString
  | String c s' => String (lower_ascii c) (ToLower s')
  end.

(** Go's [asciiSpace] table: tab, newline, vertical tab, form feed,
    carriage return, space. *)
Definition is_space (c : ascii) : bool :=
  let n := nat_of_ascii c in
  ((9 <=? n) && (n <=? 13) || (n =? 32))%nat.

Fixpoint trim_left (s : string) : string :=
  match s with
  | EmptyString => EmptyString
  | String c s' => if is_space c then trim_left s' else s
  end.

(** The string without its trailing white space. *)
Fixpoint trim_right (s : string) : string :=
  match s with
  | EmptyString => EmptyString
  | String c s' =>
      match trim_right s' with
      | EmptyString => if is_space c then EmptyString else String c EmptyString
      | t => String c t
      end
  end.

(** [strings.TrimSpace], for the ASCII white space. *)
Definition TrimSpace (s : string) : string := trim_right (trim_left s).

(** [strings.TrimSuffix] *)
Definition TrimSuffix (s suffix : string) : string :=
  if HasSuffix s suffix
  then substring 0 (String.length s - String.length suffix) s
  else s.

(** [strings.ReplaceAll s old new] for a non-empty [old]: the occurrences
    of [old] are replaced from left to right, without overlap.  [skip]
    counts the bytes of a matched occurrence still to be dropped. *)
Fixpoint replace_go (old new : string) (skip : nat) (s : string) : string :=
  match s with
  | EmptyString => EmptyString
  | String c s' =>
      match skip with
      | S k => replace_go old new k s'
      | O => if String.prefix old s
             then new +:+ replace_go old new (String.length old - 1) s'
             else String c (replace_go old new 0 s')
      end
  end.

Definition ReplaceAll (s old new : string) : string := replace_go old new 0 s.

(** [strings.Join] *)
Fixpoint Join (elems : list string) (sep : string) : string :=
  match elems with
  | [] => EmptyString
  | [e] => e
  | e :: rest => e +:+ sep +:+ Join rest sep
  end.

End GoStrings.

(** ** Go's [fmt] verbs used by the formatters *)

Module Fmt.

(** The decimal digits of a natural number. *)
Definition digits (n : Z) : string :=
  NilZero.string_of_uint (N.to_uint (Z.to_N n)).

Fixpoint zeros (n : nat) : string :=
  match n with
  | O => EmptyString
  | S k => String "0" (zeros k)
  end.

Definition pad_zero (width : nat) (s : string) : string :=
  zeros (width - String.length s) +:+ s.

(** [%0wd]: the sign comes first and counts in the width. *)
Definition d0 (width : nat) (n : Z) : string :=
  if n <? 0 then "-" +:+ pad_zero (width - 1) (digits (Z.abs n))
  else pad_zero width (digits n).

(** [%d] *)
Definition d (n : Z) : string := d0 0 n.

End Fmt.

(** ** Go's numeric conversions *)

Module GoNum.

Definition int_min : Z := - 2 ^ 63.
Definition int_max : Z := 2 ^ 63 - 1.

(** The integer part of [m * 2^e]. *)
Definition trunc_pos (m : positive) (e : Z) : Z :=
  if 0 <=? e then Z.pos m * 2 ^ e else Z.shiftr (Z.pos m) (- e).

(** [int(x)] for a [float64] on a 64-bit target: the fraction is dropped;
    Go leaves the result to the implementation when the value is not
    finite or does not fit, and amd64 then gives the least [int]. *)
Definition int_of_float64 (x : float) : Z :=
  match Prim2SF x with
  | S754_zero _ => 0
  | S754_finite neg m e =>
      let v := trunc_pos m e in
      let r := if neg then - v else v in
      if (int_min <=? r) && (r <=? int_max) then r else int_min
  | _ => int_min
  end.

End GoNum.

(** ** Package whisper: the transcription result *)

Module Whisper.

Record Segment := {
  Start : float;
  End_ : float;
  Text : string
}.

Record TranscriptionResult := {
  ResultText : string;
  Language : string;
  Segments : list Segment
}.

Definition DefaultPrompt : string :=
  "Transcribe only the actual sung or spoken lyrics. Do not add metadata such as composer, lyricist, arranger, artist names, song titles, or credits. If there is silence or instrumental sections, output nothing for those parts.".

End Whisper.

(** ** Package output: the LRC and SRT formatters *)

Module Output.
Import GoStrings Whisper.

(** [formatLRCTimestamp]: seconds to [mm:ss.xx]. *)
Definition formatLRCTimestamp (seconds : float) : string :=
  let totalMs := GoNum.int_of_float64 (PrimFloat.mul seconds 1000%float) in
  let mins := Z.quot totalMs 60000 in
  let secs := Z.quot (Z.rem totalMs 60000) 1000 in
  let centisecs := Z.quot (Z.rem totalMs 1000) 10 in
  Fmt.d0 2 mins +:+ ":" +:+ Fmt.d0 2 secs +:+ "." +:+ Fmt.d0 2 centisecs.

(** [formatSRTTimestamp]: seconds to [hh:mm:ss,mmm]. *)
Definition formatSRTTimestamp (seconds : float) : string :=
  let totalMs := GoNum.int_of_float64 (PrimFloat.mul seconds 1000%float) in
  let hours := Z.quot totalMs 3600000 in
  let mins := Z.quot (Z.rem totalMs 3600000) 60000 in
  let secs := Z.quot (Z.rem totalMs 60000) 1000 in
  let ms := Z.rem totalMs 1000 in
  Fmt.d0 2 hours +:+ ":" +:+ Fmt.d0 2 mins +:+ ":" +:+ Fmt.d0 2 secs
    +:+ "," +:+ Fmt.d0 3 ms.

Module LRCFormatter.

Definition line (seg : Segment) : string :=
  "[" +:+ formatLRCTimestamp (Start seg) +:+ "]"
      +:+ TrimSpace (Text seg) +:+ nl.

(** The [Format] method of [LRCFormatter]. *)
Definition Format (result : TranscriptionResult) : string :=
  let header := "[re:whisper-lrc]" +:+ nl in
  let lang := if String.eqb (Language result) "" then ""
              else "[la:" +:+ Language result +:+ "]" +:+ nl in
  fold_left (fun sb seg => sb +:+ line seg) (Segments result)
            (header +:+ lang +:+ nl).

End LRCFormatter.

Module SRTFormatter.

Definition block (i : Z) (seg : Segment) : string :=
  Fmt.d (i + 1) +:+ nl
    +:+ formatSRTTimestamp (Start seg) +:+ " --> "
    +:+ formatSRTTimestamp (End_ seg) +:+ nl
    +:+ TrimSpace (Text seg) +:+ nl
    +:+ nl.

Fixpoint blocks (i : Z) (segs : list Segment) (sb : string) : string :=
  match segs with
  | [] => sb
  | seg :: rest => blocks (i + 1) rest (sb +:+ block i seg)
  end.

(** The [Format] method of [SRTFormatter]. *)
Definition Format (result : TranscriptionResult) : string :=
  blocks 0 (Segments result) "".

End SRTFormatter.

End Output.

(** ** Go's [path/filepath] package, for the Unix separator *)

Module Filepath.
Import GoStrings.

Definition is_sep (c : ascii) : bool := Ascii.eqb c "/".

Fixpoint has_sep (s : string) : bool :=
  match s with
  | EmptyString => false
  | String c s' => is_sep c || has_sep s'
  end.

(** The path without its trailing separators. *)
Fixpoint strip_trailing_seps (s : string) : string :=
  match s with
  | EmptyString => EmptyString
  | String c s' =>
      match strip_trailing_seps s' with
      | EmptyString => if is_sep c then EmptyString else String c EmptyString
      | t => String c t
      end
  end.

(** What follows the last separator of [s]; [cur] is what follows the last
    separator met so far. *)
Fixpoint last_elem (s cur : string) : string :=
  match s with
  | EmptyString => cur
  | String c s' => if is_sep c then last_elem s' s' else last_elem s' cur
  end.

(** [filepath.Base]: the last element of the path, after the trailing
    separators are dropped; "." for the empty path and "/" for a path of
    separators only. *)
Definition Base (path : string) : string :=
  if String.eqb path "" then "."
  else
    let path := strip_trailing_seps path in
    let path := last_elem path path in
    if String.eqb path "" then "/" else path.

(** The suffix of [s] from the last dot of its last element; [cur] is the
    answer for what was read so far. *)
Fixpoint ext_from (s cur : string) : string :=
  match s with
  | EmptyString => cur
  | String c s' =>
      if is_sep c then ext_from s' ""
      else if Ascii.eqb c "." then ext_from s' s
      else ext_from s' cur
  end.

(** [filepath.Ext]: the suffix beginning at the final dot in the final
    element of the path, empty if there is no dot. *)
Definition Ext (path : string) : string := ext_from path "".

(** [strings.Split(s, "/")] *)
Fixpoint split_sep (s : string) : list string :=
  match s with
  | EmptyString => [EmptyString]
  | String c s' =>
      if is_sep c then EmptyString :: split_sep s'
      else match split_sep s' with
           | e :: rest => String c e :: rest
           | [] => [String c EmptyString]
           end
  end.

(** One element read by [Clean]; [out] holds the elements written so far,
    the last one first. *)
Definition clean_step (rooted : bool) (out : list string) (e : string)
  : list string :=
  if String.eqb e "" then out
  else if String.eqb e "." then out
  else if String.eqb e ".." then
    match out with
    | top :: rest =>
        if String.eqb top ".." then e :: out else rest
    | [] => if rooted then [] else [e]
    end
  else e :: out.

(** [filepath.Clean], by path elements as its documentation states it:
    separators are merged, "." elements dropped, an inner ".." cancels the
    element before it, a ".." that begins a rooted path is dropped, and the
    empty result is ".". *)
Definition Clean (path : string) : string :=
  if String.eqb path "" then "."
  else
    let rooted := String.prefix "/" path in
    let out := rev (fold_left (clean_step rooted) (split_sep path) []) in
    let s := (if rooted then "/" else "") +:+ GoStrings.Join out "/" in
    if String.eqb s "" then "." else s.

(** The prefix of [s] up to and with its last separator. *)
Fixpoint through_last_sep (s : string) : string :=
  match s with
  | EmptyString => EmptyString
  | String c s' =>
      if has_sep s then String c (through_last_sep s') else EmptyString
  end.

(** [filepath.Dir]: all but the last element of the path, cleaned. *)
Definition Dir (path : string) : string := Clean (through_last_sep path).

(** [filepath.Join]: the elements from the first non-empty one on, joined
    by separators and cleaned. *)
Fixpoint Join (elem : list string) : string :=
  match elem with
  | [] => EmptyString
  | e :: rest =>
      if String.eqb e "" then Join rest
      else Clean (GoStrings.Join elem "/")
  end.

End Filepath.

(** ** Package progress: the tracker *)

Module Progress.
Import GoStrings.

(** A [chan struct{}] that is only ever closed. *)
Inductive Chan := ChanOpen | ChanClosed.

Record Tracker := {
  total : Z;
  current : Z;
  fileName : string;
  status : string;
  errors : list string;
  completed : list string;
  done : Chan;
  started : bool;
  (** what the tracker's own methods wrote to standard output, oldest
      first (the lines of the render goroutine are not modelled) *)
  printed : list string
}.

Definition cr : string := String "013" EmptyString.
Definition check_mark : string :=
  String "226" (String "156" (String "147" EmptyString)).
Definition cross_mark : string :=
  String "226" (String "156" (String "151" EmptyString)).

Fixpoint Repeat (s : string) (n : nat) : string :=
  match n with
  | O => EmptyString
  | S k => s +:+ Repeat s k
  end.

Definition clear_line : string := Repeat " " 80 +:+ cr.

Definition NewTracker (total : Z) : Tracker :=
  {| total := total; current := 0; fileName := ""; status := "";
     errors := []; completed := []; done := ChanOpen; started := false;
     printed := [] |}.

(** [Start]: sets the flag and spawns the render goroutine. *)
Definition Start (t : Tracker) : Tracker :=
  {| total := total t; current := current t; fileName := fileName t;
     status := status t; errors := errors t; completed := completed t;
     done := done t; started := true; printed := printed t |}.

(** [close(ch)]: closing a closed channel panics ([None]). *)
Definition close (ch : Chan) : option Chan :=
  match ch with
  | ChanOpen => Some ChanClosed
  | ChanClosed => None
  end.

(** [Stop]; [None] is a panic. *)
Definition Stop (t : Tracker) : option Tracker :=
  if started t then
    match close (done t) with
    | None => None
    | Some ch =>
        Some {| total := total t; current := current t;
                fileName := fileName t; status := status t;
                errors := errors t; completed := completed t;
                done := ch; started := false;
                printed := printed t ++ [cr +:+ clear_line] |}
    end
  else Some t.

Definition SetCurrent (index : Z) (name : string) (t : Tracker) : Tracker :=
  {| total := total t; current := index; fileName := name;
     status := "Processing..."; errors := errors t;
     completed := completed t; done := done t; started := started t;
     printed := printed t |}.

Definition SetStatus (s : string) (t : Tracker) : Tracker :=
  {| total := total t; current := current t; fileName := fileName t;
     status := s; errors := errors t; completed := completed t;
     done := done t; started := started t; printed := printed t |}.

Definition truncate (s : string) (maxLen : nat) : string :=
  if (String.length s <=? maxLen)%nat then s
  else substring 0 (maxLen - 3) s +:+ "...".

Definition printCompleted (input output : string) : string :=
  cr +:+ clear_line +:+ check_mark +:+ " " +:+ truncate input 30
     +:+ " -> " +:+ truncate output 30 +:+ nl.

Definition printError (input err : string) : string :=
  cr +:+ clear_line +:+ cross_mark +:+ " " +:+ truncate input 30
     +:+ ": " +:+ err +:+ nl.

Definition Complete (input output : string) (t : Tracker) : Tracker :=
  {| total := total t; current := current t; fileName := fileName t;
     status := status t; errors := errors t;
     completed := completed t ++ [input +:+ " -> " +:+ output];
     done := done t; started := started t;
     printed := printed t ++ [printCompleted input output] |}.

Definition Error (input err : string) (t : Tracker) : Tracker :=
  {| total := total t; current := current t; fileName := fileName t;
     status := status t;
     errors := errors t ++ [input +:+ ": " +:+ err];
     completed := completed t; done := done t; started := started t;
     printed := printed t ++ [printError input err] |}.

(** The calls the orchestrator makes between [Start] and [Stop]. *)
Inductive Update :=
| USetCurrent (index : Z) (name : string)
| USetStatus (s : string)
| UComplete (input output : string)
| UError (input err : string).

Definition update (t : Tracker) (u : Update) : Tracker :=
  match u with
  | USetCurrent i n => SetCurrent i n t
  | USetStatus s => SetStatus s t
  | UComplete i o => Complete i o t
  | UError i e => Error i e t
  end.

(** [n] calls of [Stop] in a row. *)
Fixpoint Stops (n : nat) (t : Tracker) : option Tracker :=
  match n with
  | O => Some t
  | S k => match Stop t with
           | None => None
           | Some t' => Stops k t'
           end
  end.

End Progress.

(** ** The environment: file system, network, subprocesses *)

Module Env.
Import GoStrings.

(** What the program did to its environment, in the order it did it. *)
Inductive Event :=
| EvGet (url : string)
| EvCreateTemp (path : string)
| EvCopyBody (path : string)
| EvRemove (path : string)
| EvMkdirTemp (path : string)
| EvRemoveAll (path : string)
| EvRun (argv : list string)
| EvTranscribe (audioPath language prompt : string)
| EvMkdirAll (path : string)
| EvWriteFile (path content : string)
| EvTrackerError (input msg : string)
| EvTrackerComplete (input output : string).

#[global] Instance Event_eq_dec : EqDecision Event.
Proof. solve_decision. Defined.

Record State := {
  (** the temporary files and directories of this process now on disk *)
  temps : gset string;
  (** the events so far, oldest first *)
  trace : list Event
}.

Definition initial : State := {| temps := ∅; trace := [] |}.

Definition emit (e : Event) (st : State) : State :=
  {| temps := temps st; trace := (trace st ++ [e])%list |}.

(** The result of [os.Stat]. *)
Inductive StatResult :=
| StatInfo (isDir : bool)
| StatNotExist (msg : string)
| StatFail (msg : string).

(** The fields of [*url.URL] the handler reads. *)
Record URL := {
  Path : string;
  URLString : string
}.

(** The fields of [*http.Response] the handler reads; [ContentType] is
    [Header.Get("Content-Type")] and [Request] is [Request.URL]. *)
Record Response := {
  StatusCode : Z;
  ContentType : string;
  Request : URL
}.

(** What one round trip gives: a response to hand back, a redirect the
    client may follow ([location] is the next URL), or no response. *)
Inductive Reply :=
| Responded (resp : Response)
| Redirected (location : string)
| Failed (msg : string).

(** The oracles.  Each answer may depend on all that happened before. *)
Record World := {
  TempDir : string;
  Getenv : string -> string;
  Stat : State -> string -> StatResult;
  RoundTrip : State -> string -> Reply;
  (** the random part of a fresh temporary name, or an error *)
  NextTemp : State -> string -> string + string;
  (** [io.Copy] of the body into the temporary file *)
  CopyBody : State -> string -> option string;
  (** the order in which [range] walks the supported extensions *)
  RangeOrder : State -> list string;
  LookPath : State -> string -> bool;
  (** [cmd.CombinedOutput]: the output and the error *)
  CombinedOutput : State -> list string -> string * option string;
  (** [filepath.Glob]: the matches and the error *)
  Glob : State -> string -> list string * option string;
  (** the Whisper client's [Transcribe] *)
  Transcribe : State -> string -> string -> string
               -> Whisper.TranscriptionResult + string;
  MkdirAll : State -> string -> option string;
  WriteFile : State -> string -> string -> option string
}.

(** [os.joinPath] *)
Definition joinPath (dir name : string) : string :=
  if HasSuffix dir "/" && negb (String.eqb dir "")
  then dir +:+ name
  else dir +:+ "/" +:+ name.

(** [strings.LastIndex(s, "*")] split: what precedes the last star and
    what follows it, if there is a star. *)
Fixpoint split_last_star (s : string) : option (string * string) :=
  match s with
  | EmptyString => None
  | String c s' =>
      match split_last_star s' with
      | Some (p, q) => Some (String c p, q)
      | None => if Ascii.eqb c "*" then Some (EmptyString, s') else None
      end
  end.

(** The name [os.CreateTemp] and [os.MkdirTemp] try for a pattern. *)
Definition temp_name (pattern rand : string) : string :=
  match split_last_star pattern with
  | Some (p, q) => p +:+ rand +:+ q
  | None => pattern +:+ rand
  end.

(** The common part of [os.CreateTemp("", pattern)] and
    [os.MkdirTemp("", pattern)]: the path made, or the error.  A name that
    is taken is an error here (Go tries another random part; the oracle's
    answer stands for the last try). *)
Definition fresh_temp (w : World) (pattern : string) (st : State)
  : string + string :=
  if Filepath.has_sep pattern then inr "pattern contains path separator"
  else
    match NextTemp w st pattern with
    | inr err => inr err
    | inl rand =>
        let path := joinPath (TempDir w) (temp_name pattern rand) in
        if decide (path ∈ temps st) then inr "file exists" else inl path
    end.

Definition CreateTemp (w : World) (pattern : string) (st : State)
  : State * (string + string) :=
  match fresh_temp w pattern st with
  | inr err => (st, inr err)
  | inl path =>
      ({| temps := {[path]} ∪ temps st;
          trace := (trace st ++ [EvCreateTemp path])%list |}, inl path)
  end.

Definition MkdirTemp (w : World) (pattern : string) (st : State)
  : State * (string + string) :=
  match fresh_temp w pattern st with
  | inr err => (st, inr err)
  | inl path =>
      ({| temps := {[path]} ∪ temps st;
          trace := (trace st ++ [EvMkdirTemp path])%list |}, inl path)
  end.

(** [os.Remove]; the handler drops its error. *)
Definition Remove (path : string) (st : State) : State :=
  {| temps := temps st ∖ {[path]}; trace := (trace st ++ [EvRemove path])%list |}.

(** [os.RemoveAll]; the handler drops its error. *)
Definition RemoveAll (path : string) (st : State) : State :=
  {| temps := temps st ∖ {[path]};
     trace := (trace st ++ [EvRemoveAll path])%list |}.

(** ** The HTTP client *)

(** [*url.Error] *)
Record UrlError := {
  Op : string;
  ErrURL : string;
  Err : string
}.

Definition quote : string := String "034" EmptyString.

Definition UrlError_string (e : UrlError) : string :=
  Op e +:+ " " +:+ quote +:+ ErrURL e +:+ quote +:+ ": " +:+ Err e.

End Env.

(** ** Package input: the handler *)

Module Input.
Import GoStrings Env.

Definition supportedExtensions : gmap string bool :=
  list_to_map [ (".mp3", true); (".wav", true); (".m4a", true);
                (".flac", true); (".ogg", true); (".webm", true);
                (".mp4", true) ].

(** [m[k]] for a [map[string]bool]: [false] for a missing key. *)
Definition index_bool (m : gmap string bool) (k : string) : bool :=
  default false (m !! k).

(** The errors the handler makes, one constructor for each [fmt.Errorf]. *)
Inductive Error :=
| ErrNotFound (path : string)
| ErrAccess (cause : string)
| ErrIsDirectory (path : string)
| ErrUnsupported (ext : string)
| ErrDownload (cause : UrlError)
| ErrStatus (code : Z)
| ErrHTML
| ErrCreateTemp (cause : string)
| ErrSave (cause : string)
| ErrToolNotFound
| ErrMkdirTemp (cause : string)
| ErrYtDlp (cause output : string)
| ErrNoAudio.

(** [err.Error()] *)
Definition Error_string (e : Error) : string :=
  match e with
  | ErrNotFound path => "file not found: " +:+ path
  | ErrAccess cause => "failed to access file: " +:+ cause
  | ErrIsDirectory path => "path is a directory: " +:+ path
  | ErrUnsupported ext => "unsupported audio format: " +:+ ext
  | ErrDownload cause => "failed to download: " +:+ UrlError_string cause
  | ErrStatus code => "download failed with status: " +:+ Fmt.d code
  | ErrHTML =>
      "URL returned HTML instead of audio (possibly a redirect to error page)"
  | ErrCreateTemp cause => "failed to create temp file: " +:+ cause
  | ErrSave cause => "failed to save download: " +:+ cause
  | ErrToolNotFound =>
      "yt-dlp not found. Please install it: https://github.com/yt-dlp/yt-dlp"
  | ErrMkdirTemp cause => "failed to create temp directory: " +:+ cause
  | ErrYtDlp cause output =>
      "yt-dlp failed: " +:+ cause +:+ nl +:+ "Output: " +:+ output
  | ErrNoAudio => "yt-dlp download completed but no audio file found"
  end.

(** The cleanup closures: each captures the path it removes. *)
Inductive Cleanup :=
| RemoveFile (tmpPath : string)
| RemoveDir (tmpDir : string).

(** Calling the closure. *)
Definition run (c : Cleanup) (st : State) : State :=
  match c with
  | RemoveFile tmpPath => Remove tmpPath st
  | RemoveDir tmpDir => RemoveAll tmpDir st
  end.

(** The three results of [Resolve]: path, cleanup (or nil), error (or
    nil). *)
Definition Resolved : Type := string * option Cleanup * option Error.

Definition failure (e : Error) : Resolved := ("", None, Some e).

(** [resolveLocalFile] *)
Definition resolveLocalFile (w : World) (path : string) (st : State)
  : State * Resolved :=
  match Stat w st path with
  | StatNotExist _ => (st, failure (ErrNotFound path))
  | StatFail msg => (st, failure (ErrAccess msg))
  | StatInfo isDir =>
      if isDir then (st, failure (ErrIsDirectory path))
      else
        let ext := ToLower (Filepath.Ext path) in
        if negb (index_bool supportedExtensions ext)
        then (st, failure (ErrUnsupported ext))
        else (st, (path, None, None))
  end.

(** The [CheckRedirect] policy of [downloadDirect]; [via] holds the
    requests made so far. *)
Definition CheckRedirect (req : string) (via : list string)
  : option string :=
  if (10 <=? length via)%nat then Some "too many redirects" else None.

(** [http.Client.Get] under [CheckRedirect]: the loop of [Client.do].
    [via] holds the requests made before [url], oldest first; the policy
    sees the upcoming request and all requests made, and the loop goes on
    for as long as the policy allows. *)
Equations? client_do (w : World) (via : list string) (url : string)
    (st : State)
  : State * (Response + UrlError) by wf (10 - length via)%nat lt :=
  client_do w via url st with inspect (RoundTrip w st url) := {
    | exist _ (Responded resp) _ => (emit (EvGet url) st, inl resp);
    | exist _ (Failed msg) _ =>
        (emit (EvGet url) st,
         inr {| Op := "Get"; ErrURL := url; Err := msg |});
    | exist _ (Redirected loc) _
        with inspect (CheckRedirect loc (via ++ [url])%list) := {
        | exist _ (Some err) _ =>
            (emit (EvGet url) st,
             inr {| Op := "Get"; ErrURL := loc; Err := err |});
        | exist _ None Hc =>
            client_do w (via ++ [url])%list loc (emit (EvGet url) st)
      }
  }.
Proof.
  unfold CheckRedirect in Hc.
  destruct (10 <=? length (via ++ [url])%list)%nat eqn:Hlen;
    [discriminate|].
  apply Nat.leb_gt in Hlen. rewrite length_app in Hlen |- *.
  simpl in Hlen |- *. lia.
Qed.

Definition client_Get (w : World) (url : string) (st : State)
  : State * (Response + UrlError) :=
  client_do w [] url st.

Definition contentTypeMap : gmap string string :=
  list_to_map [ ("audio/mpeg", ".mp3"); ("audio/mp3", ".mp3");
                ("audio/wav", ".wav"); ("audio/x-wav", ".wav");
                ("audio/wave", ".wav"); ("audio/mp4", ".m4a");
                ("audio/x-m4a", ".m4a"); ("audio/m4a", ".m4a");
                ("audio/aac", ".m4a"); ("audio/flac", ".flac");
                ("audio/x-flac", ".flac"); ("audio/ogg", ".ogg");
                ("audio/webm", ".webm"); ("video/mp4", ".mp4");
                ("video/webm", ".webm"); ("application/ogg", ".ogg");
                ("application/octet-stream", "") ].

(** The test of one extension against the final URL. *)
Definition url_has_ext (urlPath finalURL ext : string) : bool :=
  HasSuffix (ToLower urlPath) ext
  || (Contains (ToLower finalURL) (ext +:+ "?")
      || Contains (ToLower finalURL) (ext +:+ "&")).

(** The [range] loop over the supported extensions, in the order [exts]:
    the first extension found in the URL. *)
Fixpoint url_extension (exts : list string) (urlPath finalURL : string)
  : option string :=
  match exts with
  | [] => None
  | ext :: rest =>
      if url_has_ext urlPath finalURL ext then Some ext
      else url_extension rest urlPath finalURL
  end.

(** The content type without its parameters. *)
Definition media_type (contentType : string) : string :=
  let idx := Index contentType ";" in
  if negb (idx =? -1) then TrimSpace (slice_to contentType idx)
  else contentType.

(** [getAudioExtension]; [order] is the order in which the [range] over
    [supportedExtensions] yields its keys. *)
Definition getAudioExtension (order : list string) (resp : Response)
  : string :=
  let contentType := media_type (ContentType resp) in
  let fallback :=
    let finalURL := URLString (Request resp) in
    let urlPath := Path (Request resp) in
    match url_extension order urlPath finalURL with
    | Some ext => ext
    | None => ".mp3"
    end in
  match contentTypeMap !! contentType with
  | Some ext => if negb (String.eqb ext "") then ext else fallback
  | None => fallback
  end.

(** [downloadDirect] *)
Definition downloadDirect (w : World) (inputURL : string) (st : State)
  : State * Resolved :=
  let '(st, got) := client_Get w inputURL st in
  match got with
  | inr err => (st, failure (ErrDownload err))
  | inl resp =>
      if negb (StatusCode resp =? 200)
      then (st, failure (ErrStatus (StatusCode resp)))
      else if HasPrefix (ContentType resp) "text/html"
      then (st, failure ErrHTML)
      else
        let ext := getAudioExtension (RangeOrder w st) resp in
        let '(st, made) := CreateTemp w ("whisper-lrc-*" +:+ ext) st in
        match made with
        | inr err => (st, failure (ErrCreateTemp err))
        | inl tmpPath =>
            let cleanup := RemoveFile tmpPath in
            let copied := CopyBody w st tmpPath in
            let st := emit (EvCopyBody tmpPath) st in
            match copied with
            | Some err => (run cleanup st, failure (ErrSave err))
            | None => (st, (tmpPath, Some cleanup, None))
            end
        end
  end.

Definition ytdlp_args (outputTemplate url : string) : list string :=
  [ "yt-dlp"; "-x"; "--audio-format"; "mp3"; "--audio-quality"; "0";
    "-o"; outputTemplate; "--no-playlist"; url ].

(** [files[0]] of a non-empty slice. *)
Definition first (files : list string) : string := hd "" files.

(** [downloadWithYtDlp] *)
Definition downloadWithYtDlp (w : World) (url : string) (st : State)
  : State * Resolved :=
  if negb (LookPath w st "yt-dlp") then (st, failure ErrToolNotFound)
  else
    let '(st, made) := MkdirTemp w "whisper-lrc-ytdlp-" st in
    match made with
    | inr err => (st, failure (ErrMkdirTemp err))
    | inl tmpDir =>
        let cleanup := RemoveDir tmpDir in
        let outputTemplate := Filepath.Join [tmpDir; "audio.%(ext)s"] in
        let argv := ytdlp_args outputTemplate url in
        let '(output, err) := CombinedOutput w st argv in
        let st := emit (EvRun argv) st in
        match err with
        | Some cause => (run cleanup st, failure (ErrYtDlp cause output))
        | None =>
            let '(files, err) :=
              Glob w st (Filepath.Join [tmpDir; "audio.*"]) in
            if bool_decide (err <> None) || (length files =? 0)%nat
            then (run cleanup st, failure ErrNoAudio)
            else (st, (first files, Some cleanup, None))
        end
    end.

Definition ytPatterns : list string :=
  [ "youtube.com/watch"; "youtu.be/"; "youtube.com/shorts/";
    "youtube.com/live/"; "music.youtube.com/watch" ].

(** [isYouTubeURL] *)
Definition isYouTubeURL (url : string) : bool :=
  existsb (fun pattern => Contains url pattern) ytPatterns.

(** [resolveURL] *)
Definition resolveURL (w : World) (useYtDlp : bool) (url : string)
    (st : State) : State * Resolved :=
  if useYtDlp && isYouTubeURL url then downloadWithYtDlp w url st
  else downloadDirect w url st.

Definition isURL (input : string) : bool :=
  HasPrefix input "http://" || HasPrefix input "https://".

(** [Resolve] *)
Definition Resolve (w : World) (useYtDlp : bool) (input : string)
    (st : State) : State * Resolved :=
  if isURL input then resolveURL w useYtDlp input st
  else resolveLocalFile w input st.

End Input.

(** ** Package cmd: the orchestrator *)

Module Cmd.
Import GoStrings Env Input Progress.

(** The package-level flag variables. *)
Record Flags := {
  outputFormat : string;
  outputDir : string;
  language : string;
  apiKey : string;
  prompt : string;
  useYtDlp : bool;
  verbose : bool
}.

Definition invalid : list string :=
  [ "/"; "\"; ":"; "*"; "?"; quote; "<"; ">"; "|" ].

(** [sanitizeFilename] *)
Definition sanitizeFilename (name : string) : string :=
  fold_left (fun result char => ReplaceAll result char "_") invalid name.

(** [getOutputPath] *)
Definition getOutputPath (input outputDir format : string) : string :=
  let base := Filepath.Base input in
  let ext := Filepath.Ext base in
  let name := TrimSuffix base ext in
  let name :=
    if HasPrefix input "http://" || HasPrefix input "https://" then
      let name := sanitizeFilename name in
      if String.eqb name "" then "output" else name
    else name in
  let dir :=
    if String.eqb outputDir "" then
      if HasPrefix input "http://" || HasPrefix input "https://" then "."
      else Filepath.Dir input
    else outputDir in
  Filepath.Join [dir; name +:+ "." +:+ format].

(** The variables of [runExtract] that the loop changes. *)
Record Loop := {
  env : State;
  tracker : Tracker;
  errors : list string
}.

(** The common failure exit of the loop body: the error is appended to
    [errors] and the tracker is told. *)
Definition fail (arg err : string) (l : Loop) : Loop :=
  {| env := emit (EvTrackerError arg err) (env l);
     tracker := Progress.Error arg err (tracker l);
     errors := Cmd.errors l ++ [arg +:+ ": " +:+ err] |}.

(** [if cleanup != nil { cleanup() }] *)
Definition call (cleanup : option Cleanup) (st : State) : State :=
  match cleanup with
  | Some c => run c st
  | None => st
  end.

Definition Format (format : string) (result : Whisper.TranscriptionResult)
  : string :=
  if String.eqb format "lrc" then Output.LRCFormatter.Format result
  else Output.SRTFormatter.Format result.

(** The body of the loop of [runExtract] for the argument [arg] at index
    [i]; [format] is the lowered output format. *)
Definition processItem (w : World) (flags : Flags) (format : string)
    (i : Z) (arg : string) (l : Loop) : Loop :=
  let tr := SetCurrent (i + 1) (Filepath.Base arg) (tracker l) in
  let '(st, (audioPath, cleanup, err)) :=
    Resolve w (useYtDlp flags) arg (env l) in
  match err with
  | Some err =>
      fail arg (Error_string err)
           {| env := st; tracker := tr; errors := Cmd.errors l |}
  | None =>
      let tr := SetStatus "Transcribing..." tr in
      let effectivePrompt :=
        if String.eqb (prompt flags) "" then Whisper.DefaultPrompt
        else prompt flags in
      let result :=
        Transcribe w st audioPath (language flags) effectivePrompt in
      let st :=
        emit (EvTranscribe audioPath (language flags) effectivePrompt) st in
      match result with
      | inr err =>
          fail arg err {| env := call cleanup st; tracker := tr;
                          errors := Cmd.errors l |}
      | inl result =>
          let content := Format format result in
          let outPath := getOutputPath arg (outputDir flags) format in
          let made := MkdirAll w st (Filepath.Dir outPath) in
          let st := emit (EvMkdirAll (Filepath.Dir outPath)) st in
          match made with
          | Some err =>
              fail arg err {| env := call cleanup st; tracker := tr;
                              errors := Cmd.errors l |}
          | None =>
              let written := WriteFile w st outPath content in
              let st := emit (EvWriteFile outPath content) st in
              match written with
              | Some err =>
                  fail arg err {| env := call cleanup st; tracker := tr;
                                  errors := Cmd.errors l |}
              | None =>
                  let st := call cleanup st in
                  {| env := emit (EvTrackerComplete arg outPath) st;
                     tracker := Complete arg outPath tr;
                     errors := Cmd.errors l |}
              end
          end
      end
  end.

(** [for i, arg := range args], from index [i] on. *)
Fixpoint loop (w : World) (flags : Flags) (format : string) (i : Z)
    (args : list string) (l : Loop) : Loop :=
  match args with
  | [] => l
  | arg :: rest =>
      loop w flags format (i + 1) rest (processItem w flags format i arg l)
  end.

(** How [runExtract] ends: it returns an error or nil, or it panics. *)
Inductive Outcome :=
| Returned (err : option string)
| Panicked.

Record Run := {
  outcome : Outcome;
  (** the environment when [runExtract] is left *)
  after : State;
  (** the [errors] slice; empty when the loop was not reached *)
  failed : list string;
  (** the tracker, when one was made *)
  shown : option Tracker;
  (** the lines of the summary *)
  summary : list string
}.

Definition summary_lines (n : Z) (errors : list string) : list string :=
  if (0 <? length errors)%nat then
    ("Completed with " +:+ Fmt.d (Z.of_nat (length errors))
       +:+ " error(s):")
      :: map (fun e => "  - " +:+ e) errors
  else ["Successfully processed " +:+ Fmt.d n +:+ " file(s)"].

(** [runExtract], started in the state [st]. *)
Definition runExtract (w : World) (flags : Flags) (args : list string)
    (st : State) : Run :=
  let key := if String.eqb (apiKey flags) ""
             then Getenv w "OPENAI_API_KEY" else apiKey flags in
  if String.eqb key "" then
    {| outcome := Returned (Some "OpenAI API key required. Set --api-key or OPENAI_API_KEY environment variable");
       after := st; failed := []; shown := None; summary := [] |}
  else
    let format := ToLower (outputFormat flags) in
    if negb (String.eqb format "lrc") && negb (String.eqb format "srt") then
      {| outcome := Returned (Some ("invalid output format: " +:+ format
                                      +:+ ". Use 'lrc' or 'srt'"));
         after := st; failed := []; shown := None; summary := [] |}
    else
      let n := Z.of_nat (length args) in
      let l := loop w flags format 0 args
                 {| env := st; tracker := Start (NewTracker n);
                    errors := [] |} in
      match Stop (tracker l) with
      | None =>
          {| outcome := Panicked; after := env l; failed := Cmd.errors l;
             shown := Some (tracker l); summary := [] |}
      | Some tr =>
          let lines := summary_lines n (Cmd.errors l) in
          let ret := if (0 <? length (Cmd.errors l))%nat
                     then Some "some files failed to process" else None in
          (* the deferred [tracker.Stop()] *)
          match Stop tr with
          | None =>
              {| outcome := Panicked; after := env l;
                 failed := Cmd.errors l; shown := Some tr;
                 summary := lines |}
          | Some tr' =>
              {| outcome := Returned ret; after := env l;
                 failed := Cmd.errors l; shown := Some tr';
                 summary := lines |}
          end
      end.

(** The exit status [Execute] gives the process: 1 for an error, 2 for a
    panic (the Go runtime's). *)
Definition exit_status (o : Outcome) : Z :=
  match o with
  | Returned None => 0
  | Returned (Some _) => 1
  | Panicked => 2
  end.

End Cmd.

(** ** Example inputs and environments *)

Module Examples.
Import GoStrings Env Input Whisper.

(** The transcript of the README's example. *)
#[warnings="-inexact-float"]
Definition rick_segments : list Segment :=
  [ {| Start := 0.5; End_ := 3.2; Text := "Never gonna give you up" |};
    {| Start := 3.2; End_ := 5.8; Text := "Never gonna let you down" |} ].

Definition rick (text lang : string) : TranscriptionResult :=
  {| ResultText := text; Language := lang; Segments := rick_segments |}.

Definition go_order : list string :=
  [".mp3"; ".wav"; ".m4a"; ".flac"; ".ogg"; ".webm"; ".mp4"].

(** A quiet environment: no file exists, the network fails, yt-dlp is
    not installed; the fields are overridden one by one below. *)
Definition quiet : World :=
  {| TempDir := "/tmp";
     Getenv := fun _ => "";
     Stat := fun _ _ => StatNotExist "no such file or directory";
     RoundTrip := fun _ _ => Failed "no such host";
     NextTemp := fun _ _ => inl "1234567890";
     CopyBody := fun _ _ => None;
     RangeOrder := fun _ => go_order;
     LookPath := fun _ _ => false;
     CombinedOutput := fun _ _ => ("", None);
     Glob := fun _ _ => ([], None);
     Transcribe := fun _ _ _ _ => inl (rick "" "en");
     MkdirAll := fun _ _ => None;
     WriteFile := fun _ _ _ => None |}.

(** The environment [w] with another file system. *)
Definition with_stat (f : string -> StatResult) (w : World) : World :=
  {| TempDir := TempDir w; Getenv := Getenv w;
     Stat := fun _ path => f path;
     RoundTrip := RoundTrip w; NextTemp := NextTemp w;
     CopyBody := CopyBody w; RangeOrder := RangeOrder w;
     LookPath := LookPath w; CombinedOutput := CombinedOutput w;
     Glob := Glob w; Transcribe := Transcribe w; MkdirAll := MkdirAll w;
     WriteFile := WriteFile w |}.

(** A directory [music] with the file [music/Song.MP3] and the file
    [music/notes.txt] in it. *)
Definition music_fs (path : string) : StatResult :=
  if String.eqb path "music" then StatInfo true
  else if String.eqb path "music/Song.MP3" then StatInfo false
  else if String.eqb path "music/notes.txt" then StatInfo false
  else if String.eqb path "music/locked/a.mp3"
  then StatFail "permission denied"
  else StatNotExist "no such file or directory".

Definition music : World := with_stat music_fs quiet.

Definition hop_url (n : nat) : string :=
  "https://cdn.example.com/hop/" +:+ Fmt.digits (Z.of_nat n).

Definition audio (contentType urlPath url : string) : Response :=
  {| StatusCode := 200; ContentType := contentType;
     Request := {| Path := urlPath; URLString := url |} |}.

(** A server that answers the first [n] requests with a redirect to the
    next hop and the request after them with [final]. *)
Definition hops (n : nat) (final : Response) : World :=
  {| TempDir := TempDir quiet; Getenv := Getenv quiet; Stat := Stat quiet;
     RoundTrip := fun st _ =>
       if (length (trace st) <? n)%nat
       then Redirected (hop_url (S (length (trace st))))
       else Responded final;
     NextTemp := NextTemp quiet; CopyBody := CopyBody quiet;
     RangeOrder := RangeOrder quiet; LookPath := LookPath quiet;
     CombinedOutput := CombinedOutput quiet; Glob := Glob quiet;
     Transcribe := Transcribe quiet; MkdirAll := MkdirAll quiet;
     WriteFile := WriteFile quiet |}.

Definition song : Response :=
  audio "audio/mpeg" "/hop/song" "https://cdn.example.com/hop/song".

(** The server of [song], without redirects; the copy of the body fails
    when [copy] is an error, and so does the transcription when [heard] is
    one. *)
Definition cdn (copy : option string)
    (heard : TranscriptionResult + string) : World :=
  {| TempDir := TempDir quiet; Getenv := Getenv quiet; Stat := Stat quiet;
     RoundTrip := fun _ _ => Responded song;
     NextTemp := NextTemp quiet; CopyBody := fun _ _ => copy;
     RangeOrder := RangeOrder quiet; LookPath := LookPath quiet;
     CombinedOutput := CombinedOutput quiet; Glob := Glob quiet;
     Transcribe := fun _ _ _ _ => heard; MkdirAll := MkdirAll quiet;
     WriteFile := WriteFile quiet |}.

(** A machine with yt-dlp: the tool gives [output] and [err], and the glob
    then finds [files]. *)
Definition tube (output : string) (err : option string)
    (files : list string) : World :=
  {| TempDir := TempDir quiet; Getenv := Getenv quiet; Stat := Stat quiet;
     RoundTrip := RoundTrip quiet;
     NextTemp := NextTemp quiet; CopyBody := CopyBody quiet;
     RangeOrder := RangeOrder quiet; LookPath := fun _ _ => true;
     CombinedOutput := fun _ _ => (output, err);
     Glob := fun _ _ => (files, None);
     Transcribe := Transcribe quiet; MkdirAll := MkdirAll quiet;
     WriteFile := WriteFile quiet |}.

Definition video : string := "https://www.youtube.com/watch?v=dQw4w9WgXcQ".

Definition tube_dir : string := "/tmp/whisper-lrc-ytdlp-1234567890".



(** Three arguments for the [music] directory: a song, a text file and the
    directory itself. *)
Definition playlist : list string :=
  ["music/Song.MP3"; "music/notes.txt"; "music"].

Definition flags (format dir : string) (ytdlp : bool) : Cmd.Flags :=
  {| Cmd.outputFormat := format; Cmd.outputDir := dir; Cmd.language := "";
     Cmd.apiKey := "sk-test"; Cmd.prompt := ""; Cmd.useYtDlp := ytdlp;
     Cmd.verbose := false |}.

End Examples.

(** ** Vocabulary of the properties *)

Module Spec.
Import GoStrings Env Input.

(** What a failed resolution looks like: no path, no cleanup, and the
    temporary artefacts on disk are those there were before. *)
Definition clean_failure (st st' : State) (r : Resolved) : Prop :=
  forall e, r.2 = Some e ->
    r.1.1 = "" /\ r.1.2 = None /\ temps st' = temps st.

(** The event that calling the closure leaves in the trace. *)
Definition call_event (c : Cleanup) : Event :=
  match c with
  | RemoveFile tmpPath => EvRemove tmpPath
  | RemoveDir tmpDir => EvRemoveAll tmpDir
  end.

(** The events of [if cleanup != nil { cleanup() }]. *)
Definition call_events (cleanup : option Cleanup) : list Event :=
  match cleanup with
  | Some c => [call_event c]
  | None => []
  end.

(** The events that delete something. *)
Definition is_removal (e : Event) : bool :=
  match e with
  | EvRemove _ | EvRemoveAll _ => true
  | _ => false
  end.

(** How often the closure was called in a trace. *)
Definition calls (c : Cleanup) (tr : list Event) : nat :=
  count_occ Event_eq_dec tr (call_event c).

(** The input of an outcome: the tracker is told of each item's failure or
    completion. *)
Definition outcome_input (e : Event) : option string :=
  match e with
  | EvTrackerError input _ => Some input
  | EvTrackerComplete input _ => Some input
  | _ => None
  end.

(** The line a failure adds to the error list. *)
Definition failure_line (e : Event) : option string :=
  match e with
  | EvTrackerError input msg => Some (input +:+ ": " +:+ msg)
  | _ => None
  end.

(** What a resolution adds to the trace: nothing that the tracker is told,
    and nothing that deletes when it succeeds. *)
Definition handler_trace (st st' : State) (r : Resolved) : Prop :=
  exists evs,
    trace st' = (trace st ++ evs)%list
    /\ Forall (fun e => outcome_input e = None) evs
    /\ (r.2 = None -> Forall (fun e => is_removal e = false) evs).

(** The string with [f] applied to each of its bytes. *)
Fixpoint map_chars (f : ascii -> ascii) (s : string) : string :=
  match s with
  | EmptyString => EmptyString
  | String c s' => String (f c) (map_chars f s')
  end.

(** The bytes that [sanitizeFilename] takes for invalid in a file name, each
    replaced by an underscore. *)
Definition underscore (c : ascii) : ascii :=
  if existsb (Ascii.eqb c) ["/"; "\"; ":"; "*"; "?"; "034"; "<"; ">"; "|"]%char
  then "_"%char else c.

(** A file name: a path element that is not empty, not "." and not "..". *)
Definition file_name (e : string) : Prop :=
  Filepath.has_sep e = false /\ e <> "" /\ e <> "." /\ e <> "..".

(** The stacks of elements that [Clean] builds (last element first): file
    names on top of ".." elements, which only a path that is not rooted
    keeps. *)
Inductive cleaned (rooted : bool) : list string -> Prop :=
| cleaned_dots (k : nat) :
    (rooted = true -> k = O) -> cleaned rooted (repeat ".." k)
| cleaned_name (e : string) (stack : list string) :
    file_name e -> cleaned rooted stack -> cleaned rooted (e :: stack).

(** The root of a rooted path. *)
Definition root (rooted : bool) : string := if rooted then "/" else "".

(** A prefix that is empty or ends in a separator. *)
Definition dir_prefix (pre : string) : Prop :=
  pre = "" \/ exists q, pre = q +:+ "/".

(** The name without extension that [getOutputPath] starts from. *)
Definition stem (input : string) : string :=
  TrimSuffix (Filepath.Base input) (Filepath.Ext (Filepath.Base input)).

(** The server answers [n] redirects in a row from [url] on and then the
    response [final]: what a client meets that follows them all from the
    state [st] on; [st'] is the state after the last request. *)
Fixpoint redirect_chain (w : World) (n : nat) (url : string) (st : State)
    (final : Response) (st' : State) : Prop :=
  match n with
  | O => RoundTrip w st url = Responded final /\ st' = emit (EvGet url) st
  | S k =>
      exists loc,
        RoundTrip w st url = Redirected loc
        /\ redirect_chain w k loc (emit (EvGet url) st) final st'
  end.

(** The error of a refused redirect to [loc]. *)
Definition TooManyRedirects (loc : string) : Error :=
  ErrDownload {| Op := "Get"; ErrURL := loc; Err := "too many redirects" |}.

(** The supported extensions, as a list. *)
Definition supported : list string :=
  [".mp3"; ".wav"; ".m4a"; ".flac"; ".ogg"; ".webm"; ".mp4"].


End Spec.

(** ** The render tick of the tracker *)

Module Render.
Import GoStrings Progress.

Definition spinChars : list string :=
  ["⠋"; "⠙"; "⠹"; "⠸"; "⠼"; "⠴"; "⠦"; "⠧"; "⠇"; "⠏"].

(** What a tick of [render] does with the tracker as it finds it. *)
Inductive Tick :=
| Idle                       (* no file name yet: nothing is printed *)
| Drawn (line : string)
| OutOfRange.                (* the index panic of [spinChars[spinIdx]] *)

(** One tick for the spinner index [spinIdx]: nothing while no file name
    is set, and otherwise the status line, padded or cut to the width of
    the terminal. *)
Definition frame (spinIdx : nat) (t : Tracker) : Tick :=
  if negb (String.eqb (fileName t) "") then
    let name := fileName t in
    let name := if (30 <? String.length name)%nat
                then substring 0 27 name +:+ "..." else name in
    match spinChars !! spinIdx with
    | None => OutOfRange
    | Some spin =>
        let progress :=
          cr +:+ spin +:+ " [" +:+ Fmt.d (current t) +:+ "/"
             +:+ Fmt.d (total t) +:+ "] " +:+ name +:+ ": " +:+ status t in
        Drawn (if (String.length progress <? 80)%nat
               then progress +:+ Repeat " " (80 - String.length progress)
               else substring 0 80 progress)
    end
  else Idle.

(** The spinner index after a tick. *)
Definition advance (spinIdx : nat) : nat :=
  (spinIdx + 1) mod length spinChars.

(** The loop of [render] from the spinner index [spinIdx] on: [seen] holds
    the tracker as each tick finds it under the lock, up to the closing of
    the channel; the result is what was printed, or [None] for a panic. *)
Fixpoint render_from (spinIdx : nat) (seen : list Tracker)
  : option (list string) :=
  match seen with
  | [] => Some []
  | t :: rest =>
      match frame spinIdx t with
      | OutOfRange => None
      | Idle => render_from (advance spinIdx) rest
      | Drawn line =>
          match render_from (advance spinIdx) rest with
          | Some lines => Some (line :: lines)
          | None => None
          end
      end
  end.

Definition render (seen : list Tracker) : option (list string) :=
  render_from 0 seen.

End Render.

(** ** What the orchestrator may do *)

Module Effects.
Import GoStrings Env Input Cmd.

(** The prompt that [runExtract] sends. *)
Definition effectivePrompt (flags : Flags) : string :=
  if String.eqb (prompt flags) "" then Whisper.DefaultPrompt
  else prompt flags.

(** [P] holds of every event that the loop body may leave for the argument
    [arg]: the requests, the temporary file and its removal; for a video
    URL under the yt-dlp flag the temporary directory, its removal and the
    one command; the transcription with the configured language and
    prompt; the output directory and file of [arg]; what the tracker is
    told of [arg]. *)
Definition covers (flags : Flags) (format : string) (arg : string)
    (P : Event -> Prop) : Prop :=
  (forall url, P (EvGet url))
  /\ (forall p, P (EvCreateTemp p))
  /\ (forall p, P (EvCopyBody p))
  /\ (forall p, P (EvRemove p))
  /\ (useYtDlp flags = true -> isURL arg = true -> isYouTubeURL arg = true ->
      (forall p, P (EvMkdirTemp p))
      /\ (forall p, P (EvRemoveAll p))
      /\ (forall dir,
            P (EvRun (ytdlp_args (Filepath.Join [dir; "audio.%(ext)s"]) arg))))
  /\ (forall path,
        P (EvTranscribe path (language flags) (effectivePrompt flags)))
  /\ P (EvMkdirAll
          (Filepath.Dir (getOutputPath arg (outputDir flags) format)))
  /\ (forall content,
        P (EvWriteFile (getOutputPath arg (outputDir flags) format) content))
  /\ (forall msg, P (EvTrackerError arg msg))
  /\ P (EvTrackerComplete arg (getOutputPath arg (outputDir flags) format)).

(** A transcription is asked for with the configured language and with a
    prompt that is not empty. *)
Definition transcribed_as_configured (flags : Flags) (e : Event) : Prop :=
  match e with
  | EvTranscribe _ lang p =>
      lang = language flags /\ p = effectivePrompt flags /\ p <> ""
  | _ => True
  end.

(** A command is run, and a temporary directory made or removed, only under
    the yt-dlp flag; the command is yt-dlp for one of the arguments, a URL
    with one of the video patterns, with the fixed options. *)
Definition subprocess_allowed (flags : Flags) (args : list string)
    (e : Event) : Prop :=
  match e with
  | EvRun argv =>
      useYtDlp flags = true
      /\ exists dir url,
           argv = [ "yt-dlp"; "-x"; "--audio-format"; "mp3";
                    "--audio-quality"; "0"; "-o";
                    Filepath.Join [dir; "audio.%(ext)s"];
                    "--no-playlist"; url ]
           /\ url ∈ args /\ isURL url = true /\ isYouTubeURL url = true
  | EvMkdirTemp _ | EvRemoveAll _ => useYtDlp flags = true
  | _ => True
  end.

(** A file is written, and a directory made for it, only at the output path
    of one of the arguments. *)
Definition written_to_outputs (flags : Flags) (format : string)
    (args : list string) (e : Event) : Prop :=
  match e with
  | EvWriteFile p _ =>
      exists arg, arg ∈ args /\ p = getOutputPath arg (outputDir flags) format
  | EvMkdirAll p =>
      exists arg, arg ∈ args
                  /\ p = Filepath.Dir
                           (getOutputPath arg (outputDir flags) format)
  | _ => True
  end.

End Effects.

(** ** The Whisper client *)

Module Client.
Import GoStrings Whisper.

Definition apiURL : string :=
  "https://api.openai.com/v1/audio/transcriptions".

(** A part of the multipart form, as the writer is asked to make it. *)
Inductive Part :=
| FormFile (fieldname filename content : string)
| Field (fieldname value : string).

Definition part_name (p : Part) : string :=
  match p with
  | FormFile fieldname _ _ => fieldname
  | Field fieldname _ => fieldname
  end.

(** The request that [Transcribe] builds. *)
Record Request := {
  Method : string;
  URL : string;
  Authorization : string;
  ContentType : string;
  Body : list Part
}.

(** What the client meets.  The writer of the form writes to a buffer in
    memory, and the request is made for a constant URL: these steps do not
    fail, and their error exits are left out. *)
Record Net := {
  (** the error of [os.Open], if any *)
  Open : string -> option string;
  (** [io.Copy] of the file into the form: its bytes, or an error *)
  Copy : string -> string + string;
  (** the boundary that the writer draws *)
  Boundary : string;
  (** [httpClient.Do]: the status and what [io.ReadAll] gives of the body,
      or an error *)
  Do : Request -> Z * (string + string) + string;
  (** [json.Unmarshal] into a [TranscriptionResult] *)
  Unmarshal : string -> TranscriptionResult + string
}.

(** The form of a transcription request. *)
Definition form (fileName content language prompt : string) : list Part :=
  ([ FormFile "file" fileName content;
     Field "model" "whisper-1";
     Field "response_format" "verbose_json";
     Field "timestamp_granularities[]" "segment" ]
   ++ (if negb (String.eqb language "") then [Field "language" language]
       else [])
   ++ (if negb (String.eqb prompt "") then [Field "prompt" prompt]
       else []))%list.

(** [Client.Transcribe]: the request that was sent, if one was, and the
    result or the error. *)
Definition Transcribe (n : Net) (apiKey audioPath language prompt : string)
  : option Request * (TranscriptionResult + string) :=
  match Open n audioPath with
  | Some err => (None, inr ("failed to open audio file: " +:+ err))
  | None =>
      match Copy n audioPath with
      | inr err => (None, inr ("failed to copy file: " +:+ err))
      | inl content =>
          let req :=
            {| Method := "POST"; URL := apiURL;
               Authorization := "Bearer " +:+ apiKey;
               ContentType := "multipart/form-data; boundary="
                                +:+ Boundary n;
               Body := form (Filepath.Base audioPath) content language
                            prompt |} in
          match Do n req with
          | inr err => (Some req, inr ("failed to send request: " +:+ err))
          | inl (status, inr err) =>
              (Some req, inr ("failed to read response: " +:+ err))
          | inl (status, inl body) =>
              if negb (status =? 200) then
                (Some req,
                 inr ("API error (status " +:+ Fmt.d status +:+ "): "
                        +:+ body))
              else
                match Unmarshal n body with
                | inr err =>
                    (Some req, inr ("failed to parse response: " +:+ err))
                | inl result => (Some req, inl result)
                end
          end
      end
  end.

(** The value of the form field [name], as a server reads it: that of the
    first part of this name that is not a file. *)
Fixpoint FormValue (name : string) (parts : list Part) : option string :=
  match parts with
  | [] => None
  | FormFile _ _ _ :: rest => FormValue name rest
  | Field fieldname value :: rest =>
      if String.eqb fieldname name then Some value else FormValue name rest
  end.

End Client.

(** ** The earlier download *)

Module Legacy.
Import GoStrings Env Input.

(** [defaultCheckRedirect] of [net/http], the policy of [http.Get]. *)
Definition defaultCheckRedirect (req : string) (via : list string)
  : option string :=
  if (10 <=? length via)%nat then Some "stopped after 10 redirects"
  else None.

(** [http.Get]: the loop of [Client.do] under the default policy. *)
Equations? http_do (w : World) (via : list string) (url : string)
    (st : State)
  : State * (Response + UrlError) by wf (10 - length via)%nat lt :=
  http_do w via url st with inspect (RoundTrip w st url) := {
    | exist _ (Responded resp) _ => (emit (EvGet url) st, inl resp);
    | exist _ (Failed msg) _ =>
        (emit (EvGet url) st,
         inr {| Op := "Get"; ErrURL := url; Err := msg |});
    | exist _ (Redirected loc) _
        with inspect (defaultCheckRedirect loc (via ++ [url])%list) := {
        | exist _ (Some err) _ =>
            (emit (EvGet url) st,
             inr {| Op := "Get"; ErrURL := loc; Err := err |});
        | exist _ None Hc =>
            http_do w (via ++ [url])%list loc (emit (EvGet url) st)
      }
  }.
Proof.
  unfold defaultCheckRedirect in Hc.
  destruct (10 <=? length (via ++ [url])%list)%nat eqn:Hlen;
    [discriminate|].
  apply Nat.leb_gt in Hlen. rewrite length_app in Hlen |- *.
  simpl in Hlen |- *. lia.
Qed.

Definition http_Get (w : World) (url : string) (st : State)
  : State * (Response + UrlError) :=
  http_do w [] url st.

(** [downloadDirect] as it was before the extension was taken from the
    response: the temporary file is made first, always as an mp3 file. *)
Definition downloadDirect (w : World) (url : string) (st : State)
  : State * Resolved :=
  let '(st, made) := CreateTemp w "whisper-lrc-*.mp3" st in
  match made with
  | inr err => (st, failure (ErrCreateTemp err))
  | inl tmpPath =>
      let cleanup := RemoveFile tmpPath in
      let '(st, got) := http_Get w url st in
      match got with
      | inr err => (run cleanup st, failure (ErrDownload err))
      | inl resp =>
          if negb (StatusCode resp =? 200)
          then (run cleanup st, failure (ErrStatus (StatusCode resp)))
          else
            let copied := CopyBody w st tmpPath in
            let st := emit (EvCopyBody tmpPath) st in
            match copied with
            | Some err => (run cleanup st, failure (ErrSave err))
            | None => (st, (tmpPath, Some cleanup, None))
            end
      end
  end.

End Legacy.

(** * Properties *)

(** ** Strings *)

Section StringFacts.
Import GoStrings.

Lemma app_cons_s (x : ascii) (a b : string) :
  String x a +:+ b = String x (a +:+ b).
Proof. reflexivity. Qed.

Lemma app_nil_l_s (s : string) : "" +:+ s = s.
Proof. reflexivity. Qed.

Lemma app_nil_r_s (s : string) : s +:+ "" = s.
Proof.
  induction s as [|c s IH]; [reflexivity|].
  now rewrite app_cons_s, IH.
Qed.

Lemma app_assoc_s (a b c : string) : (a +:+ b) +:+ c = a +:+ (b +:+ c).
Proof.
  induction a as [|x a IH]; [reflexivity|].
  now rewrite !app_cons_s, IH.
Qed.

Lemma length_app_s (a b : string) :
  String.length (a +:+ b) = (String.length a + String.length b)%nat.
Proof.
  induction a as [|x a IH]; [reflexivity|].
  rewrite app_cons_s. simpl. now rewrite IH.
Qed.

End StringFacts.

(** ** The formatters *)

Section FormatterFacts.
Import GoStrings Whisper Output Examples.

(** C8: the transcript with the segments (0.5, 3.2, Never gonna give you
    up) and (3.2, 5.8, Never gonna let you down) is rendered as LRC with
    the lines [00:00.50]Never gonna give you up and [00:03.20]Never gonna
    let you down after the header, and as SRT with the numbered blocks
    whose time lines are 00:00:00,500 --> 00:00:03,200 and
    00:00:03,200 --> 00:00:05,800; whatever the full text is, and for the
    language en or none. *)
Theorem formatters_render_example (text : string) :
  LRCFormatter.Format (rick text "en")
    = GoStrings.Join [ "[re:whisper-lrc]"; "[la:en]"; "";
                       "[00:00.50]Never gonna give you up";
                       "[00:03.20]Never gonna let you down"; "" ] nl
  /\ LRCFormatter.Format (rick text "")
    = GoStrings.Join [ "[re:whisper-lrc]"; "";
                       "[00:00.50]Never gonna give you up";
                       "[00:03.20]Never gonna let you down"; "" ] nl
  /\ SRTFormatter.Format (rick text "en")
    = GoStrings.Join [ "1"; "00:00:00,500 --> 00:00:03,200";
                       "Never gonna give you up"; "";
                       "2"; "00:00:03,200 --> 00:00:05,800";
                       "Never gonna let you down"; ""; "" ] nl.
Proof. repeat split; vm_compute; reflexivity. Qed.

End FormatterFacts.

(** ** The tracker *)

Section TrackerFacts.
Import Progress.

Lemma update_keeps_flags (t : Tracker) (u : Update) :
  started (update t u) = started t /\ done (update t u) = done t.
Proof. destruct u; split; reflexivity. Qed.

Lemma updates_keep_flags (us : list Update) (t : Tracker) :
  started (fold_left update us t) = started t
  /\ done (fold_left update us t) = done t.
Proof.
  revert t. induction us as [|u us IH]; intros t; [split; reflexivity|].
  simpl. destruct (IH (update t u)) as [Hs Hd].
  destruct (update_keeps_flags t u) as [Hs' Hd']. split; congruence.
Qed.

Lemma Stop_stopped (t : Tracker) : started t = false -> Stop t = Some t.
Proof. intros H. unfold Stop. now rewrite H. Qed.

Lemma Stops_stopped (k : nat) (t : Tracker) :
  started t = false -> Stops k t = Some t.
Proof.
  intros H. induction k as [|k IH]; [reflexivity|].
  simpl. now rewrite (Stop_stopped t H).
Qed.

Lemma Stop_running (t : Tracker) :
  started t = true -> done t = ChanOpen ->
  exists t', Stop t = Some t' /\ done t' = ChanClosed
             /\ started t' = false
             /\ printed t' = (printed t ++ [cr +:+ clear_line])%list.
Proof.
  intros Hs Hd. unfold Stop. rewrite Hs, Hd. simpl.
  eexists. split; [reflexivity|]. repeat split.
Qed.

End TrackerFacts.

(** ** Local files *)

Section LocalFacts.
Import GoStrings Env Input Examples.

Lemma supported_iff (e : string) :
  index_bool supportedExtensions e = true
  <-> e ∈ [".mp3"; ".wav"; ".m4a"; ".flac"; ".ogg"; ".webm"; ".mp4"].
Proof.
  unfold index_bool, supportedExtensions. simpl.
  repeat (rewrite lookup_insert; case_decide;
          [subst; simpl; split; [intros _|reflexivity];
           rewrite !elem_of_cons; tauto|]).
  rewrite lookup_empty. simpl. split; [discriminate|].
  rewrite !elem_of_cons, elem_of_nil. intuition congruence.
Qed.

(** C3: [resolveLocalFile] fails with "file not found" when the path does
    not exist, with "failed to access file" when it cannot be inspected,
    with "path is a directory" for a directory, with "unsupported audio
    format" when the lowered extension of a file is not one of .mp3 .wav
    .m4a .flac .ogg .webm .mp4; and for a file with one of these
    extensions it returns the path as given, with a nil cleanup and a nil
    error.  The state is left as it was in every case. *)
Theorem resolveLocalFile_cases (w : World) (path : string) (st : State) :
  let ext := ToLower (Filepath.Ext path) in
  let supported := [".mp3"; ".wav"; ".m4a"; ".flac"; ".ogg"; ".webm"; ".mp4"] in
  (forall msg, Stat w st path = StatNotExist msg ->
     resolveLocalFile w path st = (st, failure (ErrNotFound path)))
  /\ (forall msg, Stat w st path = StatFail msg ->
        resolveLocalFile w path st = (st, failure (ErrAccess msg)))
  /\ (Stat w st path = StatInfo true ->
        resolveLocalFile w path st = (st, failure (ErrIsDirectory path)))
  /\ (Stat w st path = StatInfo false -> ext ∉ supported ->
        resolveLocalFile w path st = (st, failure (ErrUnsupported ext)))
  /\ (Stat w st path = StatInfo false -> ext ∈ supported ->
        resolveLocalFile w path st = (st, (path, None, None))).
Proof.
  intros ext supported. unfold resolveLocalFile.
  repeat split.
  - intros msg ->. reflexivity.
  - intros msg ->. reflexivity.
  - intros ->. reflexivity.
  - intros -> Hno. fold ext.
    destruct (index_bool supportedExtensions ext) eqn:Hs; [|reflexivity].
    apply supported_iff in Hs. contradiction.
  - intros -> Hyes. fold ext.
    apply supported_iff in Hyes. now rewrite Hyes.
Qed.

Lemma resolveLocalFile_cases_witness :
  resolveLocalFile music "music/Song.MP3" initial
    = (initial, ("music/Song.MP3", None, None))
  /\ resolveLocalFile music "music/notes.txt" initial
    = (initial, failure (ErrUnsupported ".txt"))
  /\ resolveLocalFile music "music" initial
    = (initial, failure (ErrIsDirectory "music"))
  /\ resolveLocalFile music "music/locked/a.mp3" initial
    = (initial, failure (ErrAccess "permission denied"))
  /\ resolveLocalFile music "music/gone.mp3" initial
    = (initial, failure (ErrNotFound "music/gone.mp3")).
Proof.
  split; [|split; [|split; [|split]]].
  - apply (resolveLocalFile_cases music "music/Song.MP3" initial).
    + reflexivity.
    + rewrite !elem_of_cons. left. reflexivity.
  - apply (proj1 (proj2 (proj2 (proj2
      (resolveLocalFile_cases music "music/notes.txt" initial))))).
    + reflexivity.
    + intros Hin. rewrite !elem_of_cons, elem_of_nil in Hin.
      vm_compute in Hin. intuition discriminate.
  - apply (resolveLocalFile_cases music "music" initial). reflexivity.
  - apply (resolveLocalFile_cases music "music/locked/a.mp3" initial).
    reflexivity.
  - eapply (proj1 (resolveLocalFile_cases music "music/gone.mp3" initial)).
    reflexivity.
Defined.

End LocalFacts.

(** ** The environment under the handler *)

Section EnvFacts.
Import GoStrings Env Input.

Lemma fresh_temp_new (w : World) (pattern : string) (st : State)
    (path : string) :
  fresh_temp w pattern st = inl path -> path ∉ temps st.
Proof.
  unfold fresh_temp.
  destruct (Filepath.has_sep pattern); [discriminate|].
  destruct (NextTemp w st pattern) as [rand|err]; [|discriminate].
  case_decide; [discriminate|]. intros [= <-]. assumption.
Qed.

Lemma CreateTemp_made (w : World) (pattern : string) (st st1 : State)
    (path : string) :
  CreateTemp w pattern st = (st1, inl path) ->
  (path ∉ temps st)
  /\ st1 = {| temps := {[path]} ∪ temps st;
              trace := (trace st ++ [EvCreateTemp path])%list |}.
Proof.
  unfold CreateTemp.
  destruct (fresh_temp w pattern st) as [p|err] eqn:Hf; [|discriminate].
  intros [= <- <-]. split; [|reflexivity].
  exact (fresh_temp_new _ _ _ _ Hf).
Qed.

Lemma CreateTemp_failed (w : World) (pattern : string) (st st1 : State)
    (err : string) :
  CreateTemp w pattern st = (st1, inr err) -> st1 = st.
Proof.
  unfold CreateTemp.
  destruct (fresh_temp w pattern st); [discriminate|]. now intros [= <- _].
Qed.

Lemma MkdirTemp_made (w : World) (pattern : string) (st st1 : State)
    (path : string) :
  MkdirTemp w pattern st = (st1, inl path) ->
  (path ∉ temps st)
  /\ st1 = {| temps := {[path]} ∪ temps st;
              trace := (trace st ++ [EvMkdirTemp path])%list |}.
Proof.
  unfold MkdirTemp.
  destruct (fresh_temp w pattern st) as [p|err] eqn:Hf; [|discriminate].
  intros [= <- <-]. split; [|reflexivity].
  exact (fresh_temp_new _ _ _ _ Hf).
Qed.

Lemma MkdirTemp_failed (w : World) (pattern : string) (st st1 : State)
    (err : string) :
  MkdirTemp w pattern st = (st1, inr err) -> st1 = st.
Proof.
  unfold MkdirTemp.
  destruct (fresh_temp w pattern st); [discriminate|]. now intros [= <- _].
Qed.

(** Removing a temporary artefact that was new when made restores the set
    of artefacts on disk. *)
Lemma made_then_removed (path : string) (on_disk : gset string) :
  path ∉ on_disk -> ({[path]} ∪ on_disk) ∖ {[path]} = on_disk.
Proof.
  intros Hnew. apply set_eq. intros x.
  rewrite elem_of_difference, elem_of_union, !elem_of_singleton.
  split; [intros [[->|Hx] Hne]; [contradiction|assumption]|].
  intros Hx. split; [now right|]. intros ->. contradiction.
Qed.

(** The client only makes requests: it leaves the disk alone and adds
    [EvGet] events only. *)
Lemma client_do_effects (w : World) (via : list string) (url : string)
    (st : State) :
  temps (fst (client_do w via url st)) = temps st
  /\ exists urls,
       trace (fst (client_do w via url st))
         = (trace st ++ map EvGet urls)%list.
Proof.
  funelim (client_do w via url st).
  all: try (split; [reflexivity|]; exists [url]; reflexivity).
  destruct H as [Ht [urls Hu]]. split; [exact Ht|].
  exists (url :: urls). rewrite Hu. simpl.
  now rewrite <- app_assoc.
Qed.

Lemma client_Get_effects (w : World) (url : string) (st st' : State)
    (got : Response + UrlError) :
  client_Get w url st = (st', got) ->
  temps st' = temps st
  /\ exists urls, trace st' = (trace st ++ map EvGet urls)%list.
Proof.
  unfold client_Get. intros H.
  pose proof (client_do_effects w [] url st) as E. now rewrite H in E.
Qed.

End EnvFacts.

(** ** Video extraction *)

Section YtDlpFacts.
Import GoStrings Env Input Examples.

(** C6: [downloadWithYtDlp] fails with "yt-dlp not found" and touches
    nothing (no temporary directory is made) when the executable is not on
    the search path.  With the executable found and the temporary
    directory made: when the tool fails, the directory is removed before
    the error is returned, and the error message ends with the tool's
    combined output; when the tool succeeds and the glob for [audio.*]
    gives an error or no file, the directory is removed and the error is
    "no audio file found"; otherwise the first match is returned with the
    closure that removes the directory, the directory still being on
    disk and no removal having been done. *)
Theorem downloadWithYtDlp_cases (w : World) (url : string) (st : State) :
  (LookPath w st "yt-dlp" = false ->
     downloadWithYtDlp w url st = (st, failure ErrToolNotFound))
  /\ (forall tmpDir st1,
        LookPath w st "yt-dlp" = true ->
        MkdirTemp w "whisper-lrc-ytdlp-" st = (st1, inl tmpDir) ->
        let argv :=
          ytdlp_args (Filepath.Join [tmpDir; "audio.%(ext)s"]) url in
        let st2 := emit (EvRun argv) st1 in
        (forall output cause,
           CombinedOutput w st1 argv = (output, Some cause) ->
           downloadWithYtDlp w url st
             = (RemoveAll tmpDir st2, failure (ErrYtDlp cause output))
           /\ temps (RemoveAll tmpDir st2) = temps st
           /\ exists pre,
                Error_string (ErrYtDlp cause output) = pre +:+ output)
        /\ (forall output files err,
              CombinedOutput w st1 argv = (output, None) ->
              Glob w st2 (Filepath.Join [tmpDir; "audio.*"])
                = (files, err) ->
              (files = [] \/ err <> None ->
                 downloadWithYtDlp w url st
                   = (RemoveAll tmpDir st2, failure ErrNoAudio)
                 /\ temps (RemoveAll tmpDir st2) = temps st)
              /\ (forall file rest,
                    files = file :: rest -> err = None ->
                    downloadWithYtDlp w url st
                      = (st2, (file, Some (RemoveDir tmpDir), None))
                    /\ tmpDir ∈ temps st2
                    /\ trace st2
                       = (trace st ++ [EvMkdirTemp tmpDir; EvRun argv])%list))).
Proof.
  split.
  { unfold downloadWithYtDlp. now intros ->. }
  intros tmpDir st1 Hlook Hmk argv st2.
  destruct (MkdirTemp_made _ _ _ _ _ Hmk) as [Hnew Hst1].
  assert (Hgone : temps (RemoveAll tmpDir st2) = temps st).
  { subst st2 st1. simpl. now apply made_then_removed. }
  split.
  - intros output cause Hrun. split; [|split; [exact Hgone|]].
    + unfold downloadWithYtDlp. rewrite Hlook, Hmk.
      cbv beta iota zeta delta [negb].
      fold argv. now rewrite Hrun.
    + exists ("yt-dlp failed: " +:+ cause +:+ nl +:+ "Output: ").
      simpl. now rewrite !app_assoc_s.
  - intros output files err Hrun Hglob. split.
    + intros Hbad. split; [|exact Hgone].
      unfold downloadWithYtDlp. rewrite Hlook, Hmk.
      cbv beta iota zeta delta [negb].
      fold argv. rewrite Hrun. fold st2. rewrite Hglob.
      destruct Hbad as [->|Herr].
      * simpl. now rewrite orb_true_r.
      * now rewrite (bool_decide_eq_true_2 _ Herr).
    + intros file rest -> ->. split; [|split].
      * unfold downloadWithYtDlp. rewrite Hlook, Hmk.
      cbv beta iota zeta delta [negb].
        fold argv. rewrite Hrun. fold st2. rewrite Hglob.
        rewrite bool_decide_eq_false_2 by (intros H; now apply H).
        reflexivity.
      * subst st2 st1. simpl. apply elem_of_union_l.
        now apply elem_of_singleton.
      * subst st2 st1. simpl. now rewrite <- app_assoc.
Qed.

Lemma downloadWithYtDlp_cases_witness :
  downloadWithYtDlp quiet video initial = (initial, failure ErrToolNotFound)
  /\ (downloadWithYtDlp (tube "ok" None [tube_dir +:+ "/audio.mp3"])
                        video initial).2
     = (tube_dir +:+ "/audio.mp3", Some (RemoveDir tube_dir), None).
Proof.
  split.
  - apply (proj1 (downloadWithYtDlp_cases quiet video initial)). reflexivity.
  - edestruct (proj2 (downloadWithYtDlp_cases
                        (tube "ok" None [tube_dir +:+ "/audio.mp3"])
                        video initial) tube_dir) as [_ Hok].
    + reflexivity.
    + apply injective_projections; [reflexivity|vm_compute; reflexivity].
    + edestruct (Hok "ok") as [_ Hfirst]; [reflexivity|reflexivity|].
      edestruct Hfirst as [Hres _]; [reflexivity|reflexivity|].
      rewrite Hres. reflexivity.
Defined.

End YtDlpFacts.

(** ** Failed resolutions *)

Section ResolveFailure.
Import GoStrings Env Input Spec Examples.

Lemma resolveLocalFile_failure (w : World) (path : string) (st : State) :
  clean_failure st (resolveLocalFile w path st).1
                (resolveLocalFile w path st).2.
Proof.
  unfold resolveLocalFile, clean_failure.
  destruct (Stat w st path) as [[|]| |]; simpl; auto.
  destruct (index_bool supportedExtensions _); simpl; auto.
  discriminate.
Qed.

Lemma downloadDirect_failure (w : World) (url : string) (st : State) :
  clean_failure st (downloadDirect w url st).1 (downloadDirect w url st).2.
Proof.
  unfold downloadDirect, clean_failure.
  destruct (client_Get w url st) as [st1 got] eqn:Hget.
  apply client_Get_effects in Hget as [Ht _].
  destruct got as [resp|err]; [|simpl; auto].
  destruct (negb (StatusCode resp =? 200)); [simpl; auto|].
  destruct (HasPrefix (ContentType resp) "text/html"); [simpl; auto|].
  destruct (CreateTemp w _ st1) as [st2 [tmpPath|err]] eqn:Hmk.
  - apply CreateTemp_made in Hmk as [Hnew ->].
    destruct (CopyBody w _ tmpPath); simpl; [|discriminate].
    intros _ _. rewrite made_then_removed by assumption. auto.
  - apply CreateTemp_failed in Hmk as ->. simpl. auto.
Qed.

Lemma downloadWithYtDlp_failure (w : World) (url : string) (st : State) :
  clean_failure st (downloadWithYtDlp w url st).1
                (downloadWithYtDlp w url st).2.
Proof.
  unfold downloadWithYtDlp, clean_failure.
  destruct (negb (LookPath w st "yt-dlp")); [simpl; auto|].
  destruct (MkdirTemp w _ st) as [st1 [tmpDir|err]] eqn:Hmk.
  - apply MkdirTemp_made in Hmk as [Hnew ->].
    destruct (CombinedOutput w _ _) as [output [cause|]].
    + simpl. intros _ _. rewrite made_then_removed by assumption. auto.
    + destruct (Glob w _ _) as [files err].
      destruct (bool_decide (err <> None) || (length files =? 0)%nat);
        simpl; [|discriminate].
      intros _ _. rewrite made_then_removed by assumption. auto.
  - apply MkdirTemp_failed in Hmk as ->. simpl. auto.
Qed.

(** C9: whenever [Resolve] returns an error, the path it returns is empty
    and the cleanup is nil, and the temporary files and directories on
    disk are exactly those that were there before the call: what a failed
    resolution made, it has removed. *)
Theorem Resolve_failure_is_clean (w : World) (useYtDlp : bool)
    (input : string) (st st' : State)
    (path : string) (cleanup : option Cleanup) (err : Error) :
  Resolve w useYtDlp input st = (st', (path, cleanup, Some err)) ->
  path = "" /\ cleanup = None /\ temps st' = temps st.
Proof.
  intros H.
  assert (C : clean_failure st (Resolve w useYtDlp input st).1
                            (Resolve w useYtDlp input st).2).
  { unfold Resolve, resolveURL.
    destruct (isURL input);
      [destruct (useYtDlp && isYouTubeURL input)|];
      auto using resolveLocalFile_failure, downloadDirect_failure,
                 downloadWithYtDlp_failure. }
  rewrite H in C. exact (C err eq_refl).
Qed.

Lemma Resolve_failure_is_clean_witness :
  (Resolve (cdn (Some "connection reset by peer") (inr "unused")) false
           "https://cdn.example.com/hop/song" initial).2
  = failure (ErrSave "connection reset by peer")
  /\ trace (Resolve (cdn (Some "connection reset by peer") (inr "unused"))
                    false "https://cdn.example.com/hop/song" initial).1
     = [ EvGet "https://cdn.example.com/hop/song";
         EvCreateTemp "/tmp/whisper-lrc-1234567890.mp3";
         EvCopyBody "/tmp/whisper-lrc-1234567890.mp3";
         EvRemove "/tmp/whisper-lrc-1234567890.mp3" ]
  /\ temps (Resolve (cdn (Some "connection reset by peer") (inr "unused"))
                    false "https://cdn.example.com/hop/song" initial).1
     = temps initial.
Proof.
  split; [vm_compute; reflexivity|]. split; [vm_compute; reflexivity|].
  apply (Resolve_failure_is_clean
           (cdn (Some "connection reset by peer") (inr "unused")) false
           "https://cdn.example.com/hop/song" initial _ "" None
           (ErrSave "connection reset by peer")).
  apply injective_projections; [reflexivity|vm_compute; reflexivity].
Defined.

End ResolveFailure.

(** ** What a resolution leaves in the trace *)

Section ResolveTrace.
Import GoStrings Env Input Spec.

Lemma gets_are_quiet (urls : list string) :
  Forall (fun e => outcome_input e = None) (map EvGet urls)
  /\ Forall (fun e => is_removal e = false) (map EvGet urls).
Proof. split; apply List.Forall_map, Forall_forall; reflexivity. Qed.

Lemma resolveLocalFile_trace (w : World) (path : string) (st : State) :
  handler_trace st (resolveLocalFile w path st).1
                (resolveLocalFile w path st).2.
Proof.
  exists [].
  assert ((resolveLocalFile w path st).1 = st) as ->.
  { unfold resolveLocalFile.
    destruct (Stat w st path) as [[|]| |]; try reflexivity.
    now destruct (negb _). }
  rewrite app_nil_r. auto.
Qed.

Lemma downloadDirect_trace (w : World) (url : string) (st : State) :
  handler_trace st (downloadDirect w url st).1 (downloadDirect w url st).2.
Proof.
  unfold downloadDirect, handler_trace.
  destruct (client_Get w url st) as [st1 got] eqn:Hget.
  apply client_Get_effects in Hget as [_ [urls Hu]].
  destruct (gets_are_quiet urls) as [Q R].
  destruct got as [resp|err]; [|exists (map EvGet urls); simpl; auto].
  destruct (negb (StatusCode resp =? 200));
    [exists (map EvGet urls); simpl; auto|].
  destruct (HasPrefix (ContentType resp) "text/html");
    [exists (map EvGet urls); simpl; auto|].
  destruct (CreateTemp w _ st1) as [st2 [tmpPath|err]] eqn:Hmk.
  - apply CreateTemp_made in Hmk as [_ ->].
    destruct (CopyBody w _ tmpPath); simpl.
    + exists (map EvGet urls
              ++ [EvCreateTemp tmpPath; EvCopyBody tmpPath; EvRemove tmpPath])%list.
      rewrite Hu, <- !app_assoc. simpl. split; [reflexivity|].
      split; [|discriminate]. apply Forall_app. split; [exact Q|].
      repeat constructor.
    + exists (map EvGet urls
              ++ [EvCreateTemp tmpPath; EvCopyBody tmpPath])%list.
      rewrite Hu, <- !app_assoc. simpl. split; [reflexivity|].
      split; [|intros _]; apply Forall_app; (split; [assumption|]);
        repeat constructor.
  - apply CreateTemp_failed in Hmk as ->.
    exists (map EvGet urls); simpl; auto.
Qed.

Lemma downloadWithYtDlp_trace (w : World) (url : string) (st : State) :
  handler_trace st (downloadWithYtDlp w url st).1
                (downloadWithYtDlp w url st).2.
Proof.
  unfold downloadWithYtDlp, handler_trace.
  destruct (negb (LookPath w st "yt-dlp")).
  { exists []. simpl. rewrite app_nil_r. auto. }
  destruct (MkdirTemp w _ st) as [st1 [tmpDir|err]] eqn:Hmk.
  - apply MkdirTemp_made in Hmk as [_ ->].
    set (argv := ytdlp_args _ url).
    destruct (CombinedOutput w _ _) as [output [cause|]].
    + exists [EvMkdirTemp tmpDir; EvRun argv; EvRemoveAll tmpDir]. simpl.
      rewrite <- !app_assoc. simpl. split; [reflexivity|].
      split; [repeat constructor|discriminate].
    + destruct (Glob w _ _) as [files err].
      destruct (bool_decide (err <> None) || (length files =? 0)%nat); simpl.
      * exists [EvMkdirTemp tmpDir; EvRun argv; EvRemoveAll tmpDir].
        rewrite <- !app_assoc. simpl. split; [reflexivity|].
        split; [repeat constructor|discriminate].
      * exists [EvMkdirTemp tmpDir; EvRun argv].
        rewrite <- !app_assoc. simpl. split; [reflexivity|].
        split; [|intros _]; repeat constructor.
  - apply MkdirTemp_failed in Hmk as ->.
    exists []. simpl. rewrite app_nil_r. auto.
Qed.

Lemma Resolve_trace (w : World) (useYtDlp : bool) (input : string)
    (st : State) :
  handler_trace st (Resolve w useYtDlp input st).1
                (Resolve w useYtDlp input st).2.
Proof.
  unfold Resolve, resolveURL.
  destruct (isURL input);
    [destruct (useYtDlp && isYouTubeURL input)|];
    auto using resolveLocalFile_trace, downloadDirect_trace,
               downloadWithYtDlp_trace.
Qed.

(** A local path resolves without a cleanup. *)
Lemma Resolve_local_no_cleanup (w : World) (useYtDlp : bool)
    (input : string) (st : State) :
  isURL input = false -> (Resolve w useYtDlp input st).2.1.2 = None.
Proof.
  intros Hlocal. unfold Resolve. rewrite Hlocal. unfold resolveLocalFile.
  destruct (Stat w st input) as [[|]| |]; try reflexivity.
  now destruct (negb _).
Qed.

End ResolveTrace.

(** ** The loop of the orchestrator *)

Section LoopFacts.
Import GoStrings Env Input Progress Cmd Spec Examples.

Lemma omap_none {A B : Type} (f : A -> option B) (l : list A) :
  Forall (fun a => f a = None) l -> omap f l = [].
Proof.
  induction 1 as [|a l Ha _ IH]; [reflexivity|].
  cbn. now rewrite Ha, IH.
Qed.

Lemma filter_none {A : Type} (p : A -> bool) (l : list A) :
  Forall (fun a => p a = false) l -> List.filter p l = [].
Proof.
  induction 1 as [|a l Ha _ IH]; [reflexivity|].
  simpl. now rewrite Ha.
Qed.

Lemma quiet_has_no_failure_line (evs : list Event) :
  Forall (fun e => outcome_input e = None) evs ->
  Forall (fun e => failure_line e = None) evs.
Proof.
  apply List.Forall_impl. intros [] H; try reflexivity; discriminate.
Qed.

(** What one turn of the loop does: it adds events of which exactly one is
    an outcome, the one of [arg]; the error list grows by the failure
    lines among them; after a successful resolution the deletions are the
    one call of the cleanup, if there is a cleanup; and the tracker is
    neither started nor stopped. *)
Lemma processItem_effects (w : World) (flags : Flags) (format : string)
    (i : Z) (arg : string) (l : Loop) :
  exists new,
    trace (env (processItem w flags format i arg l))
      = (trace (env l) ++ new)%list
    /\ omap outcome_input new = [arg]
    /\ Cmd.errors (processItem w flags format i arg l)
       = (Cmd.errors l ++ omap failure_line new)%list
    /\ ((Resolve w (useYtDlp flags) arg (env l)).2.2 = None ->
        List.filter is_removal new
        = call_events (Resolve w (useYtDlp flags) arg (env l)).2.1.2)
    /\ started (tracker (processItem w flags format i arg l))
       = started (tracker l)
    /\ done (tracker (processItem w flags format i arg l))
       = done (tracker l).
Proof.
  unfold processItem.
  pose proof (Resolve_trace w (useYtDlp flags) arg (env l)) as T.
  destruct (Resolve w (useYtDlp flags) arg (env l))
    as [st [[audioPath cleanup] err]].
  destruct T as [evs [Htr [Hq Hr]]]. simpl in Htr, Hr |- *.
  pose proof (omap_none _ _ Hq) as Ho.
  pose proof (omap_none _ _ (quiet_has_no_failure_line _ Hq)) as Hf.
  assert (Hcall : forall s,
             trace (call cleanup s) = (trace s ++ call_events cleanup)%list).
  { intros s. destruct cleanup as [[p|d]|]; simpl;
      [reflexivity|reflexivity|now rewrite app_nil_r]. }
  assert (Hce : omap outcome_input (call_events cleanup) = []
                /\ omap failure_line (call_events cleanup) = []
                /\ List.filter is_removal (call_events cleanup)
                   = call_events cleanup).
  { destruct cleanup as [[p|d]|]; repeat split. }
  destruct Hce as [Hce1 [Hce2 Hce3]].
  destruct err as [err|].
  { exists (evs ++ [EvTrackerError arg (Error_string err)])%list. simpl.
    rewrite Htr, <- app_assoc, !omap_app, Ho, Hf. simpl.
    repeat split. discriminate. }
  specialize (Hr eq_refl). apply filter_none in Hr.
  destruct (Transcribe w st audioPath _ _) as [result|terr].
  2:{ eexists (evs ++ [EvTranscribe audioPath _ _] ++ call_events cleanup
               ++ [EvTrackerError arg terr])%list.
      simpl. rewrite Hcall. simpl. rewrite Htr, <- !app_assoc.
      rewrite !omap_app, !List.filter_app. simpl.
      rewrite !omap_app, !List.filter_app, Ho, Hf, Hr, Hce1, Hce2, Hce3.
      simpl. rewrite ?app_nil_r. repeat split; auto using app_nil_r. }
  destruct (MkdirAll w _ _) as [merr|].
  { eexists (evs ++ [EvTranscribe audioPath _ _; EvMkdirAll _]
             ++ call_events cleanup ++ [EvTrackerError arg merr])%list.
    simpl. rewrite Hcall. simpl. rewrite Htr, <- !app_assoc.
    rewrite !omap_app, !List.filter_app. simpl.
    rewrite !omap_app, !List.filter_app, Ho, Hf, Hr, Hce1, Hce2, Hce3.
    simpl. rewrite ?app_nil_r. repeat split; auto using app_nil_r. }
  destruct (WriteFile w _ _ _) as [werr|].
  { eexists (evs ++ [EvTranscribe audioPath _ _; EvMkdirAll _;
                     EvWriteFile _ _]
             ++ call_events cleanup ++ [EvTrackerError arg werr])%list.
    simpl. rewrite Hcall. simpl. rewrite Htr, <- !app_assoc.
    rewrite !omap_app, !List.filter_app. simpl.
    rewrite !omap_app, !List.filter_app, Ho, Hf, Hr, Hce1, Hce2, Hce3.
    simpl. rewrite ?app_nil_r. repeat split; auto using app_nil_r. }
  eexists (evs ++ [EvTranscribe audioPath _ _; EvMkdirAll _;
                   EvWriteFile _ _]
           ++ call_events cleanup ++ [EvTrackerComplete arg _])%list.
  simpl. rewrite Hcall. simpl. rewrite Htr, <- !app_assoc.
  rewrite !omap_app, !List.filter_app. simpl.
  rewrite !omap_app, !List.filter_app, Ho, Hf, Hr, Hce1, Hce2, Hce3.
  simpl. rewrite ?app_nil_r. repeat split; auto using app_nil_r.
Qed.


Lemma loop_effects (w : World) (flags : Flags) (format : string)
    (args : list string) (i : Z) (l : Loop) :
  exists new,
    trace (env (loop w flags format i args l)) = (trace (env l) ++ new)%list
    /\ omap outcome_input new = args
    /\ Cmd.errors (loop w flags format i args l)
       = (Cmd.errors l ++ omap failure_line new)%list
    /\ started (tracker (loop w flags format i args l)) = started (tracker l)
    /\ done (tracker (loop w flags format i args l)) = done (tracker l).
Proof.
  revert i l. induction args as [|arg rest IH]; intros i l.
  { exists []. simpl. rewrite !app_nil_r. auto. }
  simpl.
  destruct (processItem_effects w flags format i arg l)
    as [new1 [T1 [O1 [E1 [_ [S1 D1]]]]]].
  destruct (IH (i + 1) (processItem w flags format i arg l))
    as [new2 [T2 [O2 [E2 [S2 D2]]]]].
  exists (new1 ++ new2)%list.
  rewrite T2, T1, E2, E1, S2, S1, D2, D1, !omap_app, O1, O2, <- !app_assoc.
  auto.
Qed.

Lemma loop_app (w : World) (flags : Flags) (format : string)
    (pre post : list string) (i : Z) (l : Loop) :
  loop w flags format i (pre ++ post) l
  = loop w flags format (i + Z.of_nat (length pre)) post
         (loop w flags format i pre l).
Proof.
  revert i l. induction pre as [|arg pre IH]; intros i l.
  { simpl. now rewrite Z.add_0_r. }
  cbn [app loop length]. rewrite IH. f_equal. lia.
Qed.

Lemma calls_as_removals (c : Cleanup) (tr : list Event) :
  calls c tr = calls c (List.filter is_removal tr).
Proof.
  unfold calls. induction tr as [|e tr IH]; [reflexivity|].
  simpl. destruct (is_removal e) eqn:He; simpl.
  - now rewrite IH.
  - destruct (Event_eq_dec e (call_event c)) as [->|_]; [|exact IH].
    now destruct c.
Qed.

Lemma calls_one_more (c : Cleanup) (tr : list Event) :
  calls c (tr ++ [call_event c]) = S (calls c tr).
Proof.
  unfold calls. rewrite count_occ_app. simpl.
  destruct (Event_eq_dec (call_event c) (call_event c)); [lia|congruence].
Qed.

(** C1: in every batch, for every input of it: if the resolution of the
    input succeeds, then whatever the transcription, the making of the
    output directory and the writing of the output do (fail or succeed),
    the deletions done while the item is processed are exactly the one call
    of the cleanup that the resolution returned, or none when it returned a
    nil cleanup; so a non-nil cleanup is called once more than it had been,
    neither zero times nor twice.  A local input resolves with a nil
    cleanup, so nothing is deleted for it. *)
Theorem cleanup_exactly_once (w : World) (flags : Flags) (format : string)
    (pre : list string) (arg : string) (post : list string) (l0 : Loop) :
  let before := loop w flags format 0 pre l0 in
  let after :=
    processItem w flags format (Z.of_nat (length pre)) arg before in
  loop w flags format 0 (pre ++ arg :: post) l0
    = loop w flags format (Z.of_nat (length pre) + 1) post after
  /\ forall st path cleanup,
       Resolve w (useYtDlp flags) arg (env before)
         = (st, (path, cleanup, None)) ->
       (exists new,
          trace (env after) = (trace (env before) ++ new)%list
          /\ List.filter is_removal new = call_events cleanup)
       /\ (forall c, cleanup = Some c ->
             calls c (trace (env after)) = S (calls c (trace (env before))))
       /\ (isURL arg = false ->
             cleanup = None
             /\ List.filter is_removal (trace (env after))
                = List.filter is_removal (trace (env before))).
Proof.
  intros before after. split.
  { rewrite loop_app. reflexivity. }
  intros st path cleanup Hres.
  destruct (processItem_effects w flags format (Z.of_nat (length pre)) arg
              before) as [new [T [_ [_ [R _]]]]].
  fold after in T. rewrite Hres in R. specialize (R eq_refl). simpl in R.
  split; [exists new; auto|]. split.
  - intros c ->. simpl in R.
    rewrite calls_as_removals, T, List.filter_app, R.
    rewrite calls_one_more. now rewrite <- calls_as_removals.
  - intros Hlocal.
    pose proof (Resolve_local_no_cleanup w (useYtDlp flags) arg (env before)
                  Hlocal) as N.
    rewrite Hres in N. simpl in N. subst cleanup. split; [reflexivity|].
    rewrite T, List.filter_app, R. apply app_nil_r.
Qed.

Lemma cleanup_exactly_once_witness :
  calls (RemoveFile "/tmp/whisper-lrc-1234567890.mp3")
    (trace (env (processItem
                   (cdn None (inr "API error (status 401): bad key"))
                   (flags "lrc" "" false) "lrc" 1
                   "https://cdn.example.com/hop/song"
                   (loop (cdn None (inr "API error (status 401): bad key"))
                      (flags "lrc" "" false) "lrc" 0 ["music/gone.mp3"]
                      {| env := initial; tracker := Start (NewTracker 2);
                         errors := [] |}))))
  = 1%nat.
Proof.
  pose (w := cdn None (inr "API error (status 401): bad key")).
  pose (l0 := {| env := initial; tracker := Start (NewTracker 2);
                 errors := [] |}).
  pose (before := loop w (flags "lrc" "" false) "lrc" 0 ["music/gone.mp3"] l0).
  destruct (cleanup_exactly_once w (flags "lrc" "" false) "lrc"
              ["music/gone.mp3"] "https://cdn.example.com/hop/song" [] l0)
    as [_ H].
  destruct (H (Resolve w false "https://cdn.example.com/hop/song"
                 (env before)).1
              "/tmp/whisper-lrc-1234567890.mp3"
              (Some (RemoveFile "/tmp/whisper-lrc-1234567890.mp3")))
    as [_ [Hc _]].
  { apply injective_projections; [reflexivity|vm_compute; reflexivity]. }
  etransitivity; [exact (Hc _ eq_refl)|vm_compute; reflexivity].
Defined.



(** [runExtract] stops its tracker twice and does not panic. *)
Lemma runExtract_returns (w : World) (flags : Flags) (args : list string)
    (st : State) :
  outcome (runExtract w flags args st) <> Panicked.
Proof.
  unfold runExtract.
  destruct (String.eqb _ ""); [discriminate|].
  destruct (negb _ && negb _); [discriminate|].
  set (l0 := {| env := st; tracker := _; errors := [] |}).
  destruct (loop_effects w flags (ToLower (outputFormat flags)) args 0 l0)
    as [new [_ [_ [_ [S D]]]]].
  set (l := loop w flags (ToLower (outputFormat flags)) 0 args l0) in *.
  destruct (Stop_running (tracker l) S D) as [t1 [H1 [_ [S1 _]]]].
  rewrite H1, (Stop_stopped t1 S1). discriminate.
Qed.

(** C10: after one [Start] and whatever updates, the first [Stop] closes
    the [done] channel and clears the [started] flag; a [Stop] after it
    gives the tracker back as it is, without closing the channel or
    printing, and so does any number of them.  A second close would be a
    panic: [runExtract], which stops the tracker at the end of the loop and
    once more on leaving, never panics. *)
Theorem Stop_is_idempotent :
  (forall (n : Z) (us : list Update) (k : nat),
     exists t1,
       Stop (fold_left update us (Start (NewTracker n))) = Some t1
       /\ done t1 = ChanClosed
       /\ started t1 = false
       /\ Stop t1 = Some t1
       /\ Stops k t1 = Some t1)
  /\ (forall w flags args st,
        outcome (runExtract w flags args st) <> Panicked).
Proof.
  split; [|exact runExtract_returns].
  intros n us k.
  destruct (updates_keep_flags us (Start (NewTracker n))) as [S D].
  destruct (Stop_running _ S D) as [t1 [H1 [D1 [S1 _]]]].
  exists t1. repeat split; auto using Stop_stopped, Stops_stopped.
Qed.

End LoopFacts.

(** ** Direct downloads *)

Section DownloadFacts.
Import GoStrings Env Input Spec Examples.

(** One turn of the client's loop. *)
Lemma client_do_unfold (w : World) (via : list string) (url : string)
    (st : State) :
  client_do w via url st
  = match RoundTrip w st url with
    | Responded resp => (emit (EvGet url) st, inl resp)
    | Failed msg =>
        (emit (EvGet url) st,
         inr {| Op := "Get"; ErrURL := url; Err := msg |})
    | Redirected loc =>
        match CheckRedirect loc (via ++ [url])%list with
        | Some err =>
            (emit (EvGet url) st,
             inr {| Op := "Get"; ErrURL := loc; Err := err |})
        | None => client_do w (via ++ [url])%list loc (emit (EvGet url) st)
        end
    end.
Proof.
  funelim (client_do w via url st);
    repeat match goal with
           | E : _ = _ |- _ => rewrite E
           end; reflexivity.
Qed.

Lemma CheckRedirect_allows (req : string) (via : list string) :
  (length via < 10)%nat -> CheckRedirect req via = None.
Proof.
  intros H. unfold CheckRedirect.
  destruct (Nat.leb_spec 10 (length via)); [lia|reflexivity].
Qed.

Lemma CheckRedirect_refuses (req : string) (via : list string) :
  (10 <= length via)%nat ->
  CheckRedirect req via = Some "too many redirects".
Proof.
  intros H. unfold CheckRedirect.
  destruct (Nat.leb_spec 10 (length via)); [reflexivity|lia].
Qed.

Lemma length_snoc (via : list string) (url : string) :
  length (via ++ [url]) = S (length via).
Proof. rewrite length_app. simpl. lia. Qed.

(** Up to nine redirects are followed to the final response. *)
Lemma client_do_follows (w : World) (n : nat) (via : list string)
    (url : string) (st : State) (final : Response) (st' : State) :
  (length via + n <= 9)%nat ->
  redirect_chain w n url st final st' ->
  client_do w via url st = (st', inl final).
Proof.
  revert via url st. induction n as [|n IH]; intros via url st Hlen.
  - intros [Hrt ->]. now rewrite client_do_unfold, Hrt.
  - intros [loc [Hrt Hrest]]. rewrite client_do_unfold, Hrt.
    rewrite CheckRedirect_allows by (rewrite length_snoc; lia).
    apply IH; [rewrite length_snoc; lia|exact Hrest].
Qed.

(** The tenth redirect is refused. *)
Lemma client_do_refuses (w : World) (n : nat) (via : list string)
    (url : string) (st : State) (final : Response) (st' : State) :
  (length via <= 9)%nat -> (10 <= length via + n)%nat ->
  redirect_chain w n url st final st' ->
  exists st'' loc,
    client_do w via url st
    = (st'', inr {| Op := "Get"; ErrURL := loc; Err := "too many redirects" |}).
Proof.
  revert via url st. induction n as [|n IH]; intros via url st Hle Hge.
  - lia.
  - intros [loc [Hrt Hrest]]. rewrite client_do_unfold, Hrt.
    destruct (Nat.le_gt_cases 10 (length (via ++ [url]))) as [Hc|Hc].
    + rewrite CheckRedirect_refuses by exact Hc. eauto.
    + rewrite CheckRedirect_allows by exact Hc.
      rewrite length_snoc in Hc.
      apply IH; [rewrite length_snoc; lia..|exact Hrest].
Qed.

Lemma downloadDirect_refused (w : World) (url : string) (st st' : State)
    (err : UrlError) :
  client_Get w url st = (st', inr err) ->
  downloadDirect w url st = (st', failure (ErrDownload err)).
Proof. intros H. unfold downloadDirect. now rewrite H. Qed.

(** C4, as the code has it: the client follows at most nine redirects.  A
    chain of ten or more redirects fails with "too many redirects" and
    leaves no temporary file; for a chain of at most nine redirects the
    final response decides: a status other than 200 fails with that status;
    a 200 whose content type begins with text/html fails with the HTML
    error, only requests having been made and no temporary file; and a 200
    of another content type, when the temporary file can be made and the
    body copied, gives the temporary file with the closure that removes
    it. *)
Theorem redirects_capped (w : World) (url : string) (st : State) (n : nat)
    (final : Response) (st1 : State) :
  redirect_chain w n url st final st1 ->
  ((10 <= n)%nat ->
     exists st' loc,
       downloadDirect w url st = (st', failure (TooManyRedirects loc))
       /\ temps st' = temps st)
  /\ ((n <= 9)%nat ->
        (StatusCode final <> 200 ->
           downloadDirect w url st
           = (st1, failure (ErrStatus (StatusCode final))))
        /\ (StatusCode final = 200 ->
            HasPrefix (ContentType final) "text/html" = true ->
            downloadDirect w url st = (st1, failure ErrHTML)
            /\ temps st1 = temps st
            /\ exists urls, trace st1 = (trace st ++ map EvGet urls)%list)
        /\ (StatusCode final = 200 ->
            HasPrefix (ContentType final) "text/html" = false ->
            forall tmpPath st2,
              CreateTemp w ("whisper-lrc-*" +:+
                              getAudioExtension (RangeOrder w st1) final) st1
                = (st2, inl tmpPath) ->
              CopyBody w st2 tmpPath = None ->
              downloadDirect w url st
              = (emit (EvCopyBody tmpPath) st2,
                 (tmpPath, Some (RemoveFile tmpPath), None)))).
Proof.
  intros Hchain. split.
  - intros Hn.
    destruct (client_do_refuses w n [] url st final st1) as [st' [loc Hget]];
      [simpl; lia|simpl; lia|exact Hchain|].
    exists st', loc. split.
    + now apply downloadDirect_refused.
    + now apply (client_Get_effects w url st st' _ Hget).
  - intros Hn.
    assert (Hget : client_Get w url st = (st1, inl final)).
    { apply (client_do_follows w n); [simpl; lia|exact Hchain]. }
    destruct (client_Get_effects _ _ _ _ _ Hget) as [Ht Hu].
    unfold downloadDirect. rewrite Hget. split; [|split].
    + intros Hcode. apply Z.eqb_neq in Hcode. now rewrite Hcode.
    + intros Hcode Hhtml. rewrite Hcode, Hhtml. simpl. auto.
    + intros Hcode Hhtml tmpPath st2 Hmk Hcopy.
      rewrite Hcode, Hhtml. cbv beta iota zeta delta [negb Z.eqb Pos.eqb].
      now rewrite Hmk, Hcopy.
Qed.

Lemma redirects_capped_witness :
  (downloadDirect (hops 9 song) (hop_url 0) initial).2
  = ("/tmp/whisper-lrc-1234567890.mp3",
     Some (RemoveFile "/tmp/whisper-lrc-1234567890.mp3"), None).
Proof.
  pose (st1 := (client_Get (hops 9 song) (hop_url 0) initial).1).
  assert (C : redirect_chain (hops 9 song) 9 (hop_url 0) initial song st1).
  { cbn [redirect_chain].
    repeat (eexists; split; [vm_compute; reflexivity|]).
    split; vm_compute; reflexivity. }
  destruct (redirects_capped (hops 9 song) (hop_url 0) initial 9 song st1 C)
    as [_ Hle].
  destruct (Hle (le_n 9)) as [_ [_ Hok]].
  erewrite Hok; [reflexivity|reflexivity|reflexivity|vm_compute; reflexivity
                |reflexivity].
Defined.

(** C4, as stated, fails: a chain of exactly ten redirects that ends in a
    200 response of type audio/mpeg is refused. *)
Lemma ten_redirects_refused :
  exists st1,
    redirect_chain (hops 10 song) 10 (hop_url 0) initial song st1
    /\ StatusCode song = 200
    /\ HasPrefix (ContentType song) "text/html" = false
    /\ (downloadDirect (hops 10 song) (hop_url 0) initial).2
       = failure (TooManyRedirects (hop_url 10)).
Proof.
  eexists. split; [|repeat split; vm_compute; reflexivity].
  cbn [redirect_chain].
  repeat (eexists; split; [vm_compute; reflexivity|]).
  split; vm_compute; reflexivity.
Qed.

End DownloadFacts.

(** ** The extension of a download *)

Section ExtensionFacts.
Import GoStrings Env Input Spec Examples.

Lemma table_gives_supported (contentType ext : string) :
  contentTypeMap !! contentType = Some ext -> ext <> "" -> ext ∈ supported.
Proof.
  unfold contentTypeMap, supported. simpl.
  repeat (rewrite lookup_insert; case_decide;
          [intros [= <-] Hne; rewrite !elem_of_cons;
           first [contradiction|tauto]|]).
  rewrite lookup_empty. discriminate.
Qed.

Lemma url_extension_found (order : list string) (urlPath finalURL ext : string) :
  url_extension order urlPath finalURL = Some ext ->
  ext ∈ order /\ url_has_ext urlPath finalURL ext = true.
Proof.
  induction order as [|e order IH]; [discriminate|].
  simpl. destruct (url_has_ext urlPath finalURL e) eqn:He.
  - intros [= <-]. split; [apply elem_of_cons; now left|exact He].
  - intros H. destruct (IH H). split; [apply elem_of_cons; now right|auto].
Qed.

Lemma url_extension_missing (order : list string) (urlPath finalURL : string) :
  url_extension order urlPath finalURL = None ->
  forall ext, ext ∈ order -> url_has_ext urlPath finalURL ext = false.
Proof.
  induction order as [|e order IH]; intros H ext Hin.
  - now apply elem_of_nil in Hin.
  - simpl in H. destruct (url_has_ext urlPath finalURL e) eqn:He;
      [discriminate|].
    apply elem_of_cons in Hin as [->|Hin]; auto.
Qed.

(** The fall-back of [getAudioExtension]. *)
Lemma fallback_cases (order : list string) (urlPath finalURL : string) :
  order ≡ₚ supported ->
  let ext := default ".mp3" (url_extension order urlPath finalURL) in
  ext ∈ supported
  /\ ((exists e, e ∈ supported /\ url_has_ext urlPath finalURL e = true) ->
      url_has_ext urlPath finalURL ext = true)
  /\ ((forall e, e ∈ supported -> url_has_ext urlPath finalURL e = false) ->
      ext = ".mp3").
Proof.
  intros Hperm ext. subst ext.
  destruct (url_extension order urlPath finalURL) as [e|] eqn:Hu; simpl.
  - apply url_extension_found in Hu as [Hin Hhas].
    rewrite Hperm in Hin. split; [exact Hin|]. split; [auto|].
    intros Hnone. rewrite (Hnone e Hin) in Hhas. discriminate.
  - split; [unfold supported; rewrite !elem_of_cons; tauto|].
    split; [|reflexivity].
    intros [e [Hin Hhas]]. rewrite <- Hperm in Hin.
    rewrite (url_extension_missing _ _ _ Hu e Hin) in Hhas. discriminate.
Qed.

Lemma ext_from_app (e : string) :
  (forall cur, Filepath.ext_from e cur = e) ->
  forall x cur, Filepath.ext_from (x +:+ e) cur = e.
Proof.
  intros He x. induction x as [|c x IH]; intros cur; [apply He|].
  rewrite app_cons_s. simpl.
  destruct (Filepath.is_sep c); [apply IH|].
  destruct (Ascii.eqb c "."); apply IH.
Qed.

(** A temporary file made for the pattern of [downloadDirect] with a
    supported extension has this extension. *)
Lemma temp_file_extension (w : World) (ext : string) (st st' : State)
    (tmpPath : string) :
  ext ∈ supported ->
  CreateTemp w ("whisper-lrc-*" +:+ ext) st = (st', inl tmpPath) ->
  Filepath.Ext tmpPath = ext.
Proof.
  intros Hin Hmk. unfold CreateTemp, fresh_temp in Hmk.
  destruct (Filepath.has_sep _); [discriminate|].
  destruct (NextTemp w st _) as [rand|]; [|discriminate].
  case_decide; [discriminate|]. injection Hmk as _ <-.
  assert (Hname : temp_name ("whisper-lrc-*" +:+ ext) rand
                  = ("whisper-lrc-" +:+ rand) +:+ ext
                  /\ forall cur, Filepath.ext_from ext cur = ext).
  { unfold supported in Hin. rewrite !elem_of_cons, elem_of_nil in Hin.
    rewrite app_assoc_s.
    destruct Hin as [->|[->|[->|[->|[->|[->|[->|[]]]]]]]];
      split; reflexivity. }
  destruct Hname as [-> Hext]. unfold joinPath, Filepath.Ext.
  destruct (_ && _); rewrite <- ?app_assoc_s; now apply ext_from_app.
Qed.

Lemma getAudioExtension_unfold (order : list string) (resp : Response) :
  getAudioExtension order resp
  = let fallback :=
      default ".mp3" (url_extension order (Path (Request resp))
                                    (URLString (Request resp))) in
    match contentTypeMap !! media_type (ContentType resp) with
    | Some e => if negb (String.eqb e "") then e else fallback
    | None => fallback
    end.
Proof.
  unfold getAudioExtension.
  destruct (url_extension order _ _); reflexivity.
Qed.

Lemma getAudioExtension_supported (order : list string) (resp : Response) :
  order ≡ₚ supported -> getAudioExtension order resp ∈ supported.
Proof.
  intros Hperm. rewrite getAudioExtension_unfold. cbv zeta.
  destruct (fallback_cases order (Path (Request resp))
              (URLString (Request resp)) Hperm) as [Fin _].
  destruct (contentTypeMap !! media_type (ContentType resp)) as [e|] eqn:He;
    [|exact Fin].
  destruct (String.eqb_spec e ""); simpl; [exact Fin|].
  now apply (table_gives_supported (media_type (ContentType resp))).
Qed.

(** The temporary file of a successful download has the extension that
    [getAudioExtension] gives for the final response. *)
Lemma downloadDirect_extension (w : World) (url : string) (st st' : State)
    (tmpPath : string) (cleanup : option Cleanup) :
  (forall s, RangeOrder w s ≡ₚ supported) ->
  downloadDirect w url st = (st', (tmpPath, cleanup, None)) ->
  exists st1 resp,
    client_Get w url st = (st1, inl resp)
    /\ Filepath.Ext tmpPath = getAudioExtension (RangeOrder w st1) resp.
Proof.
  intros Hperm. unfold downloadDirect.
  destruct (client_Get w url st) as [st1 [resp|err]]; [|discriminate].
  destruct (negb (StatusCode resp =? 200)); [discriminate|].
  destruct (HasPrefix (ContentType resp) "text/html"); [discriminate|].
  destruct (CreateTemp w _ st1) as [st2 [path|err]] eqn:Hmk; [|discriminate].
  destruct (CopyBody w st2 path); [discriminate|].
  intros [= _ <- _]. exists st1, resp. split; [reflexivity|].
  apply (temp_file_extension w _ st1 st2); [|exact Hmk].
  apply getAudioExtension_supported, Hperm.
Qed.




End ExtensionFacts.

(** ** Output paths *)

Section PathFacts.
Import GoStrings Filepath Spec Cmd.

Lemma string_prefix_nil (s : string) : String.prefix "" s = true.
Proof. now destruct s. Qed.

Lemma ReplaceAll_char (c : ascii) (s : string) :
  ReplaceAll s (String c "") "_"
  = map_chars (fun x => if Ascii.eqb x c then "_"%char else x) s.
Proof.
  unfold ReplaceAll. induction s as [|x s IH]; [reflexivity|].
  cbn [replace_go map_chars String.prefix String.length Nat.sub].
  destruct (ascii_dec c x) as [->|Hne].
  - rewrite string_prefix_nil, Ascii.eqb_refl. simpl. now rewrite IH.
  - assert (Ascii.eqb x c = false) as -> by (apply Ascii.eqb_neq; congruence).
    now rewrite IH.
Qed.

Lemma map_chars_compose (f g : ascii -> ascii) (s : string) :
  map_chars f (map_chars g s) = map_chars (fun c => f (g c)) s.
Proof. induction s as [|c s IH]; [reflexivity|]. simpl. now rewrite IH. Qed.

Lemma map_chars_ext (f g : ascii -> ascii) (s : string) :
  (forall c, f c = g c) -> map_chars f s = map_chars g s.
Proof.
  intros H. induction s as [|c s IH]; [reflexivity|]. simpl.
  now rewrite H, IH.
Qed.

Lemma sanitizeFilename_underscores (name : string) :
  sanitizeFilename name = map_chars underscore name.
Proof.
  unfold sanitizeFilename, invalid, Env.quote. cbn [fold_left].
  rewrite !ReplaceAll_char, !map_chars_compose.
  apply map_chars_ext.
  intros [[] [] [] [] [] [] [] []]; reflexivity.
Qed.

Lemma underscore_no_sep (s : string) : has_sep (map_chars underscore s) = false.
Proof.
  induction s as [|c s IH]; [reflexivity|].
  simpl. rewrite IH, orb_false_r.
  destruct c as [[] [] [] [] [] [] [] []]; reflexivity.
Qed.

Lemma has_sep_app (a b : string) :
  has_sep (a +:+ b) = has_sep a || has_sep b.
Proof.
  induction a as [|c a IH]; [reflexivity|].
  rewrite app_cons_s. simpl. now rewrite IH, orb_assoc.
Qed.

Lemma split_sep_not_nil (s : string) : split_sep s <> [].
Proof.
  induction s as [|c s IH]; [discriminate|].
  simpl. destruct (is_sep c); [discriminate|].
  destruct (split_sep s); [contradiction|discriminate].
Qed.

Lemma split_sep_no_sep (s : string) : has_sep s = false -> split_sep s = [s].
Proof.
  induction s as [|c s IH]; [reflexivity|].
  simpl. destruct (is_sep c); [discriminate|].
  simpl. intros H. now rewrite (IH H).
Qed.

Lemma split_sep_app (a b : string) :
  split_sep (a +:+ String "/" b) = (split_sep a ++ split_sep b)%list.
Proof.
  induction a as [|c a IH]; [reflexivity|].
  rewrite app_cons_s. simpl. destruct (is_sep c).
  - now rewrite IH.
  - rewrite IH. pose proof (split_sep_not_nil a).
    destruct (split_sep a); [contradiction|reflexivity].
Qed.

Lemma split_sep_elements (s : string) :
  Forall (fun e => has_sep e = false) (split_sep s).
Proof.
  induction s as [|c s IH]; [repeat constructor|].
  simpl. destruct (is_sep c) eqn:Hc; [constructor; auto|].
  destruct (split_sep s) as [|e rest]; [repeat constructor; simpl; now rewrite Hc|].
  inversion IH; subst. constructor; [simpl; now rewrite Hc|assumption].
Qed.

Lemma file_name_not_dots (e : string) :
  file_name e ->
  String.eqb e "" = false /\ String.eqb e "." = false
  /\ String.eqb e ".." = false.
Proof.
  intros [_ [H1 [H2 H3]]]. repeat split; now apply String.eqb_neq.
Qed.

Lemma clean_step_name (rooted : bool) (stack : list string) (e : string) :
  file_name e -> clean_step rooted stack e = e :: stack.
Proof.
  intros H. destruct (file_name_not_dots e H) as [H1 [H2 H3]].
  unfold clean_step. now rewrite H1, H2, H3.
Qed.

Lemma cleaned_tail (rooted : bool) (e : string) (stack : list string) :
  cleaned rooted (e :: stack) -> cleaned rooted stack.
Proof.
  inversion 1 as [k Hk Heq|e' stack' Hn Hc]; subst; [|assumption].
  destruct k as [|k]; [discriminate|]. simpl in Heq. injection Heq as _ <-.
  apply cleaned_dots. intros Hr. specialize (Hk Hr). discriminate.
Qed.

Lemma clean_step_cleaned (rooted : bool) (stack : list string) (e : string) :
  has_sep e = false -> cleaned rooted stack ->
  cleaned rooted (clean_step rooted stack e).
Proof.
  intros He Hc. unfold clean_step.
  destruct (String.eqb_spec e ""); [assumption|].
  destruct (String.eqb_spec e "."); [assumption|].
  destruct (String.eqb_spec e "..") as [->|Hdd].
  - destruct stack as [|top rest].
    + destruct rooted eqn:Hr.
      * apply (cleaned_dots true 0). reflexivity.
      * apply (cleaned_dots false 1). discriminate.
    + destruct (String.eqb_spec top "..") as [->|Hne].
      * inversion Hc as [k Hk Heq|e' stack' Hn Hc']; subst.
        -- change (cleaned rooted (repeat ".." (S k))).
           apply cleaned_dots. intros Hr. specialize (Hk Hr). subst k.
           discriminate.
        -- destruct Hn as [_ [_ [_ Hn]]]. contradiction.
      * now apply cleaned_tail in Hc.
  - apply cleaned_name; [|assumption]. repeat split; assumption.
Qed.

Lemma fold_cleaned (rooted : bool) (elems stack : list string) :
  Forall (fun e => has_sep e = false) elems -> cleaned rooted stack ->
  cleaned rooted (fold_left (clean_step rooted) elems stack).
Proof.
  revert stack. induction elems as [|e elems IH]; intros stack Hf Hc;
    [assumption|].
  inversion Hf; subst. simpl. apply IH; [assumption|].
  now apply clean_step_cleaned.
Qed.

(** Reading a cleaned stack again builds the same stack. *)
Lemma clean_step_again (rooted : bool) (e : string) (stack : list string) :
  cleaned rooted (e :: stack) -> clean_step rooted stack e = e :: stack.
Proof.
  inversion 1 as [k Hk Heq|e' stack' Hn Hc]; subst;
    [|now apply clean_step_name].
  destruct k as [|k]; [discriminate|]. simpl in Heq. injection Heq as <- <-.
  unfold clean_step. simpl.
  destruct k as [|k]; simpl.
  - destruct rooted; [|reflexivity]. specialize (Hk eq_refl). discriminate.
  - reflexivity.
Qed.

Lemma fold_again (rooted : bool) (stack : list string) :
  cleaned rooted stack ->
  fold_left (clean_step rooted) (rev stack) [] = stack.
Proof.
  induction stack as [|e stack IH]; intros Hc; [reflexivity|].
  simpl. rewrite fold_left_app. simpl.
  rewrite IH by (now apply cleaned_tail in Hc).
  now apply clean_step_again.
Qed.

Lemma cleaned_elements (rooted : bool) (stack : list string) :
  cleaned rooted stack ->
  Forall (fun e => has_sep e = false /\ e <> "") stack.
Proof.
  induction 1 as [k Hk|e stack [Hs [Hn _]] Hc IH].
  - induction k as [|k IHk]; [constructor|].
    simpl. constructor; [split; [reflexivity|discriminate]|].
    apply IHk. intros Hr. specialize (Hk Hr). discriminate.
  - constructor; auto.
Qed.

Lemma Clean_unfold (path : string) :
  path <> "" ->
  Clean path
  = let rooted := String.prefix "/" path in
    let out := rev (fold_left (clean_step rooted) (split_sep path) []) in
    let s := root rooted +:+ GoStrings.Join out "/" in
    if String.eqb s "" then "." else s.
Proof.
  intros H. unfold Clean. apply String.eqb_neq in H. now rewrite H.
Qed.

Lemma Join_snoc (out : list string) (f : string) :
  GoStrings.Join (out ++ [f]) "/"
  = match out with
    | [] => f
    | _ => GoStrings.Join out "/" +:+ "/" +:+ f
    end.
Proof.
  induction out as [|e out IH]; [reflexivity|].
  destruct out as [|e2 out]; [reflexivity|].
  change (GoStrings.Join ((e :: e2 :: out) ++ [f]) "/")
    with (e +:+ "/" +:+ GoStrings.Join ((e2 :: out) ++ [f]) "/").
  rewrite IH.
  change (GoStrings.Join (e :: e2 :: out) "/")
    with (e +:+ "/" +:+ GoStrings.Join (e2 :: out) "/").
  now rewrite !app_assoc_s.
Qed.

Lemma split_Join (out : list string) :
  out <> [] -> Forall (fun e => has_sep e = false) out ->
  split_sep (GoStrings.Join out "/") = out.
Proof.
  induction out as [|e out IH]; [contradiction|]. intros _ Hf.
  inversion Hf as [|? ? He Hout]; subst.
  destruct out as [|e2 out]; [now apply split_sep_no_sep|].
  change (GoStrings.Join (e :: e2 :: out) "/")
    with (e +:+ String "/" (GoStrings.Join (e2 :: out) "/")).
  rewrite split_sep_app, (split_sep_no_sep e He), IH by (auto; discriminate).
  reflexivity.
Qed.

Lemma app_not_nil_r (a b : string) : b <> "" -> a +:+ b <> "".
Proof. intros Hb. destruct a; [exact Hb|discriminate]. Qed.

Lemma app_not_nil_l (a b : string) : a <> "" -> a +:+ b <> "".
Proof. intros Ha. destruct a; [contradiction|discriminate]. Qed.

Lemma prefix_sep_cons (c : ascii) (s : string) :
  String.prefix "/" (String c s) = is_sep c.
Proof.
  cbn [String.prefix]. unfold is_sep.
  destruct (ascii_dec "/" c) as [<-|Hne].
  - now destruct s.
  - symmetry. apply Ascii.eqb_neq. congruence.
Qed.

Lemma sep_prefix_app (a b : string) :
  a <> "" -> String.prefix "/" (a +:+ b) = String.prefix "/" a.
Proof.
  intros Ha. destruct a as [|c a]; [contradiction|].
  now rewrite app_cons_s, !prefix_sep_cons.
Qed.

Lemma prefix_sep_name (e b : string) :
  has_sep e = false -> e <> "" -> String.prefix "/" (e +:+ b) = false.
Proof.
  intros Hs Hn. destruct e as [|c e]; [contradiction|].
  rewrite app_cons_s, prefix_sep_cons. simpl in Hs.
  now apply orb_false_iff in Hs as [Hc _].
Qed.

Lemma Join_not_nil (out : list string) :
  out <> [] -> Forall (fun e => has_sep e = false /\ e <> "") out ->
  GoStrings.Join out "/" <> ""
  /\ forall b, String.prefix "/" (GoStrings.Join out "/" +:+ b) = false.
Proof.
  destruct out as [|e out]; [contradiction|]. intros _ Hf.
  inversion Hf as [|? ? [Hs Hn] _]; subst.
  destruct out as [|e2 out].
  - split; [exact Hn|]. intros b. now apply prefix_sep_name.
  - change (GoStrings.Join (e :: e2 :: out) "/")
      with (e +:+ "/" +:+ GoStrings.Join (e2 :: out) "/").
    split; [now apply app_not_nil_l|].
    intros b. rewrite app_assoc_s. now apply prefix_sep_name.
Qed.

(** The paths [Clean] gives are fixed points of it, also with a separator
    after them. *)
Lemma Clean_of_cleaned (rooted : bool) (stack : list string) (tail : string) :
  cleaned rooted stack -> stack <> [] -> tail = "" \/ tail = "/" ->
  Clean ((root rooted +:+ GoStrings.Join (rev stack) "/") +:+ tail)
  = root rooted +:+ GoStrings.Join (rev stack) "/".
Proof.
  intros Hc Hne Htail.
  assert (Hout : rev stack <> []).
  { intros H. apply (f_equal (@rev string)) in H.
    rewrite rev_involutive in H. contradiction. }
  pose proof (cleaned_elements rooted stack Hc) as Hel.
  apply Forall_rev in Hel.
  assert (Hsep : Forall (fun e => has_sep e = false) (rev stack)).
  { eapply List.Forall_impl; [|exact Hel]. now intros e [He _]. }
  destruct (Join_not_nil (rev stack) Hout Hel) as [Hj Hpre].
  set (J := GoStrings.Join (rev stack) "/") in *.
  assert (Hp : root rooted +:+ J <> "") by now apply app_not_nil_r.
  rewrite Clean_unfold by now apply app_not_nil_l.
  assert (Hrooted : String.prefix "/" ((root rooted +:+ J) +:+ tail) = rooted).
  { destruct rooted; unfold root.
    - rewrite !app_cons_s. apply prefix_sep_cons.
    - rewrite app_nil_l_s. apply Hpre. }
  rewrite Hrooted. cbv zeta.
  assert (Hfold : fold_left (clean_step rooted)
                    (split_sep ((root rooted +:+ J) +:+ tail)) [] = stack).
  { assert (Hs : split_sep (J +:+ tail) = rev stack
                 \/ split_sep (J +:+ tail) = (rev stack ++ [""])%list).
    { destruct Htail as [->| ->].
      - left. rewrite app_nil_r_s. now apply split_Join.
      - right. change "/" with (String "/" "").
        rewrite split_sep_app. unfold J. now rewrite split_Join. }
    assert (Hskip : fold_left (clean_step rooted) (split_sep (J +:+ tail)) []
                    = stack).
    { destruct Hs as [->| ->].
      - now apply fold_again.
      - rewrite fold_left_app, fold_again by assumption. reflexivity. }
    destruct rooted; unfold root.
    - rewrite app_assoc_s, app_cons_s, app_nil_l_s. simpl. exact Hskip.
    - rewrite app_nil_l_s. exact Hskip. }
  rewrite Hfold. fold J.
  apply String.eqb_neq in Hp. now rewrite Hp.
Qed.

(** [Clean] gives the root and the elements of a cleaned stack. *)
Lemma Clean_shape (path : string) :
  path <> "" ->
  exists stack,
    stack = fold_left (clean_step (String.prefix "/" path))
              (split_sep path) []
    /\ cleaned (String.prefix "/" path) stack
    /\ Clean path
       = match stack with
         | [] => if String.prefix "/" path then "/" else "."
         | _ => root (String.prefix "/" path)
                  +:+ GoStrings.Join (rev stack) "/"
         end.
Proof.
  intros Hne. eexists. split; [reflexivity|].
  set (rooted := String.prefix "/" path).
  assert (Hc : cleaned rooted
                 (fold_left (clean_step rooted) (split_sep path) [])).
  { apply fold_cleaned; [apply split_sep_elements|].
    apply (cleaned_dots rooted 0). reflexivity. }
  split; [exact Hc|].
  rewrite Clean_unfold by assumption. fold rooted. cbv zeta.
  destruct (fold_left (clean_step rooted) (split_sep path) [])
    as [|e stack] eqn:Hst.
  - now destruct rooted.
  - pose proof (cleaned_elements rooted _ Hc) as Hel.
    apply Forall_rev in Hel.
    assert (Hout : rev (e :: stack) <> []).
    { simpl. now destruct (rev stack). }
    destruct (Join_not_nil _ Hout Hel) as [Hj _].
    assert (Hp : root rooted +:+ GoStrings.Join (rev (e :: stack)) "/" <> "")
      by now apply app_not_nil_r.
    apply String.eqb_neq in Hp. now rewrite Hp.
Qed.

Lemma Clean_not_nil (path : string) : Clean path <> "".
Proof.
  destruct (String.eqb_spec path "") as [->|Hne]; [discriminate|].
  rewrite Clean_unfold by assumption. cbv zeta.
  destruct (String.eqb_spec (root (String.prefix "/" path) +:+
     GoStrings.Join (rev (fold_left (clean_step (String.prefix "/" path))
                            (split_sep path) [])) "/") "");
    [discriminate|assumption].
Qed.

Lemma Clean_idempotent (path : string) : Clean (Clean path) = Clean path.
Proof.
  destruct (String.eqb_spec path "") as [->|Hne]; [reflexivity|].
  destruct (Clean_shape path Hne) as [stack [_ [Hc ->]]].
  destruct stack as [|e stack].
  - now destruct (String.prefix "/" path).
  - rewrite <- (app_nil_r_s (root _ +:+ _)) at 1.
    apply Clean_of_cleaned; [assumption|discriminate|now left].
Qed.

Lemma strip_no_sep (f : string) :
  has_sep f = false -> strip_trailing_seps f = f.
Proof.
  induction f as [|c f IH]; [reflexivity|].
  simpl. intros H. apply orb_false_iff in H as [Hc Hf].
  rewrite (IH Hf), Hc. now destruct f.
Qed.

Lemma strip_keeps_name (a f : string) :
  has_sep f = false -> f <> "" -> strip_trailing_seps (a +:+ f) = a +:+ f.
Proof.
  intros Hs Hn. induction a as [|c a IH]; [now apply strip_no_sep|].
  rewrite app_cons_s. simpl. rewrite IH.
  pose proof (app_not_nil_r a f Hn).
  now destruct (a +:+ f).
Qed.

Lemma last_elem_no_sep (s cur : string) :
  has_sep s = false -> last_elem s cur = cur.
Proof.
  revert cur. induction s as [|c s IH]; intros cur; [reflexivity|].
  simpl. intros H. apply orb_false_iff in H as [Hc Hs].
  rewrite Hc. now apply IH.
Qed.

Lemma last_elem_after_sep (q r cur : string) :
  last_elem (q +:+ String "/" r) cur = last_elem r r.
Proof.
  revert cur. induction q as [|c q IH]; intros cur; [reflexivity|].
  rewrite app_cons_s. simpl. destruct (is_sep c); apply IH.
Qed.

Lemma through_last_sep_no_sep (f : string) :
  has_sep f = false -> through_last_sep f = "".
Proof.
  destruct f as [|c f]; [reflexivity|]. simpl. now intros ->.
Qed.

Lemma through_last_sep_app (q f : string) :
  has_sep f = false ->
  through_last_sep ((q +:+ "/") +:+ f) = q +:+ "/".
Proof.
  intros Hf. induction q as [|c q IH].
  - rewrite app_nil_l_s, app_cons_s, app_nil_l_s.
    cbn [through_last_sep has_sep is_sep Ascii.eqb Bool.eqb orb].
    now rewrite through_last_sep_no_sep.
  - rewrite !app_cons_s. cbn [through_last_sep]. rewrite IH.
    assert (has_sep (String c ((q +:+ "/") +:+ f)) = true) as ->;
      [|reflexivity].
    cbn [has_sep]. rewrite !has_sep_app. simpl.
    now rewrite orb_true_r, orb_true_r.
Qed.

Lemma Base_of_file (pre f : string) :
  dir_prefix pre -> file_name f -> Base (pre +:+ f) = f.
Proof.
  intros Hpre [Hs [Hn _]]. unfold Base.
  pose proof (app_not_nil_r pre f Hn) as Hne.
  apply String.eqb_neq in Hne. rewrite Hne, strip_keeps_name by assumption.
  assert (last_elem (pre +:+ f) (pre +:+ f) = f) as ->.
  { destruct Hpre as [->|[q ->]].
    - rewrite app_nil_l_s. now apply last_elem_no_sep.
    - rewrite app_assoc_s, app_cons_s, app_nil_l_s, last_elem_after_sep.
      now apply last_elem_no_sep. }
  apply String.eqb_neq in Hn. now rewrite Hn.
Qed.

Lemma Dir_of_file (pre f : string) :
  dir_prefix pre -> file_name f -> Dir (pre +:+ f) = Clean pre.
Proof.
  intros Hpre [Hs _]. unfold Dir. f_equal.
  destruct Hpre as [->|[q ->]].
  - rewrite app_nil_l_s. now apply through_last_sep_no_sep.
  - now apply through_last_sep_app.
Qed.

(** Where [Clean] puts a file name that follows a directory: after the
    cleaned directory. *)
Lemma Clean_dir_file (dir f : string) :
  dir <> "" -> file_name f ->
  exists pre,
    dir_prefix pre /\ Clean pre = Clean dir
    /\ Clean (dir +:+ "/" +:+ f) = pre +:+ f
    /\ Clean (dir +:+ "/" +:+ "/" +:+ f) = pre +:+ f.
Proof.
  intros Hd Hf.
  destruct (Clean_shape dir Hd) as [stack [Hst [Hc Hclean]]].
  set (rooted := String.prefix "/" dir) in *.
  assert (Hfold : forall mid,
    mid = [] \/ mid = [""] ->
    fold_left (clean_step rooted) (split_sep dir ++ mid ++ [f]) []
    = f :: stack).
  { intros mid Hmid. rewrite fold_left_app, <- Hst, fold_left_app.
    destruct Hmid as [->| ->]; simpl; now apply clean_step_name. }
  assert (Hgen : forall path mid,
    mid = [] \/ mid = [""] ->
    path <> "" -> String.prefix "/" path = rooted ->
    split_sep path = (split_sep dir ++ mid ++ [f])%list ->
    Clean path = root rooted +:+ GoStrings.Join (rev stack ++ [f]) "/").
  { intros path mid Hmid Hp Hr Hs.
    rewrite Clean_unfold by assumption. rewrite Hr, Hs. cbv zeta.
    rewrite (Hfold mid Hmid). cbn [rev].
    assert (Hne : root rooted +:+ GoStrings.Join (rev stack ++ [f]) "/" <> "").
    { apply app_not_nil_r. rewrite Join_snoc.
      destruct Hf as [_ [Hn _]].
      destruct (rev stack); [assumption|]. now apply app_not_nil_r, app_not_nil_r. }
    apply String.eqb_neq in Hne. now rewrite Hne. }
  exists (root rooted +:+ match rev stack with
                          | [] => ""
                          | _ => GoStrings.Join (rev stack) "/" +:+ "/"
                          end).
  assert (Hjoin : root rooted +:+ GoStrings.Join (rev stack ++ [f]) "/"
                  = (root rooted +:+ match rev stack with
                                     | [] => ""
                                     | _ => GoStrings.Join (rev stack) "/"
                                              +:+ "/"
                                     end) +:+ f).
  { rewrite Join_snoc. destruct (rev stack); now rewrite !app_assoc_s. }
  split; [|split; [|split]].
  - destruct (rev stack) as [|e out].
    + destruct rooted; [right; now exists ""|now left].
    + right. exists (root rooted +:+ GoStrings.Join (e :: out) "/").
      now rewrite app_assoc_s.
  - rewrite Hclean. destruct stack as [|e stack].
    + simpl. now destruct rooted.
    + assert (Hrev : rev (e :: stack) <> []).
      { simpl. now destruct (rev stack). }
      destruct (rev (e :: stack)) as [|e' out] eqn:Hrv; [contradiction|].
      rewrite <- Hrv, <- app_assoc_s.
      apply Clean_of_cleaned; [assumption|discriminate|now right].
  - rewrite <- Hjoin. apply (Hgen _ []); [now left| | |].
    + now apply app_not_nil_l.
    + now apply sep_prefix_app.
    + change ("/" +:+ f) with (String "/" f).
      rewrite split_sep_app, (split_sep_no_sep f) by apply Hf. reflexivity.
  - rewrite <- Hjoin. apply (Hgen _ [""]); [now right| | |].
    + now apply app_not_nil_l.
    + now apply sep_prefix_app.
    + change ("/" +:+ "/" +:+ f) with (String "/" (String "/" f)).
      rewrite split_sep_app. simpl.
      rewrite (split_sep_no_sep f) by apply Hf. reflexivity.
Qed.

(** A file joined to a directory lies in the directory, cleaned, under its
    own name. *)
Lemma Join_dir_file (dir f : string) :
  dir <> "" -> file_name f ->
  Base (Join [dir; f]) = f
  /\ Dir (Join [dir; f]) = Clean dir
  /\ Dir (Join [dir; "/" +:+ f]) = Clean dir.
Proof.
  intros Hd Hf.
  destruct (Clean_dir_file dir f Hd Hf) as [pre [Hpre [Hcl [H1 H2]]]].
  apply String.eqb_neq in Hd.
  assert (Join [dir; f] = pre +:+ f) as ->.
  { cbn [Join]. rewrite Hd. exact H1. }
  assert (Join [dir; "/" +:+ f] = pre +:+ f) as ->.
  { cbn [Join]. rewrite Hd. exact H2. }
  rewrite <- Hcl.
  auto using Base_of_file, Dir_of_file.
Qed.

Lemma file_of_stem (stem format : string) :
  format = "lrc" \/ format = "srt" -> has_sep stem = false ->
  file_name (stem +:+ "." +:+ format).
Proof.
  intros Hfmt Hs.
  assert (Hlen : (4 <= String.length (stem +:+ "." +:+ format))%nat).
  { rewrite !length_app_s. destruct Hfmt as [->| ->]; simpl; lia. }
  split; [|repeat split; intros H; rewrite H in Hlen; simpl in Hlen; lia].
  rewrite !has_sep_app, Hs. now destruct Hfmt as [->| ->].
Qed.

Lemma last_elem_has_no_sep (s cur : string) :
  (has_sep s = false -> has_sep cur = false) ->
  has_sep (last_elem s cur) = false.
Proof.
  revert cur. induction s as [|c s IH]; intros cur H; [now apply H|].
  simpl in *. destruct (is_sep c); [now apply IH|].
  apply IH. exact H.
Qed.

Lemma Base_shape (path : string) :
  Base path = "/" \/ has_sep (Base path) = false.
Proof.
  unfold Base. destruct (String.eqb path ""); [now right|].
  destruct (String.eqb_spec
              (last_elem (strip_trailing_seps path)
                         (strip_trailing_seps path)) "");
    [now left|right].
  now apply last_elem_has_no_sep.
Qed.

Lemma substring_no_sep (s : string) (n : nat) :
  has_sep s = false -> has_sep (substring 0 n s) = false.
Proof.
  revert n. induction s as [|c s IH]; intros [|n] H; try reflexivity.
  simpl in *. apply orb_false_iff in H as [-> Hs]. now apply IH.
Qed.

Lemma TrimSuffix_no_sep (s suffix : string) :
  has_sep s = false -> has_sep (TrimSuffix s suffix) = false.
Proof.
  intros H. unfold TrimSuffix.
  destruct (HasSuffix s suffix); [now apply substring_no_sep|assumption].
Qed.

Lemma stem_shape (input : string) :
  stem input = "/" \/ has_sep (stem input) = false.
Proof.
  unfold stem. destruct (Base_shape input) as [->|H].
  - now left.
  - right. now apply TrimSuffix_no_sep.
Qed.

Lemma stem_of_base (input : string) :
  Base input <> "/" -> has_sep (stem input) = false.
Proof.
  intros Hb. unfold stem. destruct (Base_shape input) as [H|H];
    [contradiction|]. now apply TrimSuffix_no_sep.
Qed.

(** C7: for a URL, the base name of the output is the base name of the
    input without its extension, with each slash, backslash, colon, star,
    question mark, double quote, angle bracket and bar replaced by an
    underscore, or the name output when that is empty; the
    output file is named by this base name, a dot and the format; it lies in
    the output directory when one is configured, and otherwise in the
    current directory for a URL and in the directory of the input for a
    local path, where it is named after the input. *)
Theorem output_path (input outputDir format : string) :
  format = "lrc" \/ format = "srt" ->
  (Input.isURL input = true ->
     sanitizeFilename (stem input) = map_chars underscore (stem input)
     /\ Base (getOutputPath input outputDir format)
        = (if String.eqb (sanitizeFilename (stem input)) "" then "output"
           else sanitizeFilename (stem input)) +:+ "." +:+ format
     /\ Dir (getOutputPath input outputDir format)
        = if String.eqb outputDir "" then "." else Clean outputDir)
  /\ (Input.isURL input = false ->
      Dir (getOutputPath input outputDir format)
      = (if String.eqb outputDir "" then Dir input else Clean outputDir)
      /\ (Base input <> "/" ->
          Base (getOutputPath input outputDir format)
          = stem input +:+ "." +:+ format)).
Proof.
  intros Hfmt. split.
  - intros Hurl. split; [apply sanitizeFilename_underscores|].
    unfold getOutputPath. fold (stem input).
    change (HasPrefix input "http://" || HasPrefix input "https://")
      with (Input.isURL input).
    rewrite Hurl.
    set (name := if String.eqb (sanitizeFilename (stem input)) ""
                 then "output" else sanitizeFilename (stem input)).
    assert (Hname : has_sep name = false).
    { subst name. destruct (String.eqb _ ""); [reflexivity|].
      rewrite sanitizeFilename_underscores. apply underscore_no_sep. }
    pose proof (file_of_stem name format Hfmt Hname) as Hfile.
    destruct (String.eqb_spec outputDir "") as [->|Hd].
    + destruct (Join_dir_file "." _ (ltac:(discriminate)) Hfile)
        as [HB [HD _]]. now rewrite HB, HD.
    + destruct (Join_dir_file outputDir _ Hd Hfile) as [HB [HD _]].
      now rewrite HB, HD.
  - intros Hlocal. unfold getOutputPath. fold (stem input).
    change (HasPrefix input "http://" || HasPrefix input "https://")
      with (Input.isURL input).
    rewrite Hlocal.
    set (dir := if String.eqb outputDir "" then Dir input else outputDir).
    assert (Hdir : dir <> "").
    { subst dir. destruct (String.eqb_spec outputDir ""); [|assumption].
      apply Clean_not_nil. }
    assert (Hclean : Clean dir
                     = if String.eqb outputDir "" then Dir input
                       else Clean outputDir).
    { subst dir. destruct (String.eqb outputDir ""); [|reflexivity].
      apply Clean_idempotent. }
    rewrite <- Hclean. split.
    + destruct (stem_shape input) as [->|Hs].
      * destruct (Join_dir_file dir ("." +:+ format) Hdir
                    (file_of_stem "" format Hfmt eq_refl)) as [_ [_ HD]].
        exact HD.
      * now destruct (Join_dir_file dir _ Hdir
                        (file_of_stem _ format Hfmt Hs)) as [_ [HD _]].
    + intros Hb.
      now destruct (Join_dir_file dir _ Hdir
                      (file_of_stem _ format Hfmt (stem_of_base _ Hb)))
        as [HB _].
Qed.

Lemma output_path_witness :
  Base (getOutputPath "https://example.com/dl/My*Song?.mp3" "lyrics" "lrc")
  = "My_Song_.lrc"
  /\ Dir (getOutputPath "https://example.com/dl/My*Song?.mp3" "lyrics" "lrc")
    = "lyrics"
  /\ Dir (getOutputPath "music/Song.MP3" "" "srt") = Dir "music/Song.MP3".
Proof.
  destruct (output_path "https://example.com/dl/My*Song?.mp3" "lyrics" "lrc"
              (or_introl eq_refl)) as [Hurl _].
  destruct (Hurl eq_refl) as [_ [HB HD]].
  destruct (output_path "music/Song.MP3" "" "srt" (or_intror eq_refl))
    as [_ Hlocal].
  destruct (Hlocal eq_refl) as [HL _].
  split; [|split].
  - rewrite HB. reflexivity.
  - rewrite HD. reflexivity.
  - rewrite HL. reflexivity.
Defined.

End PathFacts.

(** ** The progress display *)

Section TrackerMore.
Import GoStrings Progress Render.

Lemma length_substring_0 (n : nat) (s : string) :
  String.length (substring 0 n s) = Nat.min n (String.length s).
Proof.
  revert n. induction s as [|c s IH]; intros [|n]; try reflexivity.
  simpl. now rewrite IH.
Qed.

Lemma length_Repeat_space (n : nat) : String.length (Repeat " " n) = n.
Proof.
  induction n as [|n IH]; [reflexivity|].
  cbn [Repeat]. rewrite length_app_s, IH. reflexivity.
Qed.

(** [truncate] keeps a string that fits and cuts a longer one to exactly
    [maxLen] bytes, the last three being dots; [maxLen] is at least 3 (Go
    panics on the slice otherwise). *)
Theorem truncate_bounds (s : string) (maxLen : nat) :
  (3 <= maxLen)%nat ->
  (String.length (truncate s maxLen) <= maxLen)%nat
  /\ ((String.length s <= maxLen)%nat -> truncate s maxLen = s)
  /\ ((maxLen < String.length s)%nat ->
      String.length (truncate s maxLen) = maxLen
      /\ exists kept, truncate s maxLen = kept +:+ "..."
                      /\ String.prefix kept s = true).
Proof.
  intros Hmax. unfold truncate.
  destruct (Nat.leb_spec (String.length s) maxLen) as [Hle|Hgt].
  - split; [exact Hle|]. split; [reflexivity|lia].
  - assert (Hlen : String.length (substring 0 (maxLen - 3) s +:+ "...")
                   = maxLen).
    { rewrite length_app_s, length_substring_0. simpl. lia. }
    split; [lia|]. split; [lia|]. intros _. split; [exact Hlen|].
    eexists. split; [reflexivity|].
    apply String.prefix_correct.
    rewrite length_substring_0.
    replace (Nat.min (maxLen - 3) (String.length s)) with (maxLen - 3)%nat
      by lia.
    reflexivity.
Qed.

Lemma truncate_bounds_witness :
  String.length (truncate "a-very-long-file-name-of-forty-bytes.mp3" 30)
  = 30%nat.
Proof.
  apply (truncate_bounds "a-very-long-file-name-of-forty-bytes.mp3" 30);
    simpl; lia.
Defined.

(** A tracker that was not started is left alone by [Stop]; a tracker that
    was started and stopped cannot be used again: after another [Start],
    [Stop] closes the closed channel, which is a panic. *)
Theorem tracker_is_single_use (n : Z) (us : list Update) :
  Stop (NewTracker n) = Some (NewTracker n)
  /\ exists t1,
       Stop (fold_left update us (Start (NewTracker n))) = Some t1
       /\ Stop (Start t1) = None
       /\ Stop (fold_left update us (Start t1)) = None.
Proof.
  split; [reflexivity|].
  destruct (updates_keep_flags us (Start (NewTracker n))) as [S D].
  destruct (Stop_running _ S D) as [t1 [H1 [D1 [S1 _]]]].
  exists t1. split; [exact H1|]. split.
  - unfold Stop. simpl. now rewrite D1.
  - destruct (updates_keep_flags us (Start t1)) as [S2 D2].
    unfold Stop. rewrite S2, D2. simpl. now rewrite D1.
Qed.

Lemma advance_in_range (spinIdx : nat) :
  (advance spinIdx < length spinChars)%nat.
Proof. unfold advance. apply Nat.mod_upper_bound. discriminate. Qed.

Lemma prefix_cr_app (x : string) : String.prefix cr (cr +:+ x) = true.
Proof.
  unfold cr. rewrite app_cons_s. cbn [String.prefix].
  destruct (ascii_dec "013" "013"); [|congruence].
  now destruct (_ +:+ _).
Qed.

Lemma prefix_cr_substring (n : nat) (x : string) :
  String.prefix cr (substring 0 (S n) (cr +:+ x)) = true.
Proof.
  unfold cr. rewrite app_cons_s. cbn [substring String.prefix].
  destruct (ascii_dec "013" "013"); [|congruence].
  now destruct (substring _ _ _).
Qed.

Lemma frame_cases (spinIdx : nat) (t : Tracker) :
  (spinIdx < length spinChars)%nat ->
  if String.eqb (fileName t) "" then frame spinIdx t = Idle
  else exists line, frame spinIdx t = Drawn line
                    /\ String.length line = 80%nat
                    /\ String.prefix cr line = true.
Proof.
  intros Hidx. unfold frame.
  destruct (String.eqb (fileName t) ""); [reflexivity|]. cbn [negb].
  destruct (lookup_lt_is_Some_2 spinChars spinIdx Hidx) as [spin ->].
  eexists. split; [reflexivity|].
  match goal with
  | |- context [(String.length (cr +:+ ?p) <? 80)%nat] => set (rest := p)
  end.
  destruct (Nat.ltb_spec (String.length (cr +:+ rest)) 80) as [Hlt|Hge].
  - split; [rewrite length_app_s, length_Repeat_space; lia|].
    rewrite app_assoc_s. apply prefix_cr_app.
  - split; [rewrite length_substring_0; lia|].
    apply prefix_cr_substring.
Qed.

Lemma render_from_lines (spinIdx : nat) (seen : list Tracker) :
  (spinIdx < length spinChars)%nat ->
  exists lines,
    render_from spinIdx seen = Some lines
    /\ Forall (fun line => String.length line = 80%nat
                           /\ String.prefix cr line = true) lines
    /\ length lines
       = length (List.filter
                   (fun t => negb (String.eqb (fileName t) "")) seen).
Proof.
  revert spinIdx. induction seen as [|t rest IH]; intros spinIdx Hidx.
  { exists []. repeat split. constructor. }
  destruct (IH (advance spinIdx) (advance_in_range spinIdx))
    as [lines [Hr [Hl Hn]]].
  pose proof (frame_cases spinIdx t Hidx) as Hf.
  cbn [render_from List.filter].
  destruct (String.eqb (fileName t) "").
  - rewrite Hf, Hr. exists lines. auto.
  - destruct Hf as [line [-> Hline]]. rewrite Hr.
    exists (line :: lines). cbn [negb length]. repeat split; auto.
Qed.

(** The render loop never indexes past the ten spinner characters, however
    long it runs; at each tick it prints nothing while no file name is set
    and otherwise one line of exactly 80 bytes that starts with a carriage
    return, whatever the lengths of the name and of the status. *)
Theorem render_draws_full_lines (seen : list Tracker) :
  exists lines,
    render seen = Some lines
    /\ Forall (fun line => String.length line = 80%nat
                           /\ String.prefix cr line = true) lines
    /\ length lines
       = length (List.filter
                   (fun t => negb (String.eqb (fileName t) "")) seen).
Proof. apply render_from_lines. simpl. lia. Qed.

End TrackerMore.

(** ** Timestamps and documents *)

Section TimestampFacts.
Import GoStrings Whisper Output.

Lemma bounded_by_check (P : Z -> bool) (bound : nat) :
  forallb (fun k => P (Z.of_nat k)) (seq 0 bound) = true ->
  forall n, 0 <= n < Z.of_nat bound -> P n = true.
Proof.
  intros Hall n Hn. rewrite forallb_forall in Hall.
  specialize (Hall (Z.to_nat n)). rewrite Z2Nat.id in Hall by lia.
  apply Hall. apply in_seq. lia.
Qed.

Lemma d0_2_length (n : Z) :
  0 <= n < 100 -> String.length (Fmt.d0 2 n) = 2%nat.
Proof.
  intros Hn. apply Nat.eqb_eq.
  apply (bounded_by_check
           (fun n => Nat.eqb (String.length (Fmt.d0 2 n)) 2) 100);
    [vm_compute; reflexivity|exact Hn].
Qed.

Lemma d0_3_length (n : Z) :
  0 <= n < 1000 -> String.length (Fmt.d0 3 n) = 3%nat.
Proof.
  intros Hn. apply Nat.eqb_eq.
  apply (bounded_by_check
           (fun n => Nat.eqb (String.length (Fmt.d0 3 n)) 3) 1000);
    [vm_compute; reflexivity|exact Hn].
Qed.

(** The SRT timestamp of a time that is not negative loses nothing: its
    four fields are in their ranges (minutes and seconds below 60,
    milliseconds below 1000) and add up to the time in milliseconds; below
    100 hours it is 12 bytes long. *)
Theorem formatSRTTimestamp_fields (seconds : float) :
  0 <= GoNum.int_of_float64 (PrimFloat.mul seconds 1000%float) ->
  exists h m s ms,
    formatSRTTimestamp seconds
    = Fmt.d0 2 h +:+ ":" +:+ Fmt.d0 2 m +:+ ":" +:+ Fmt.d0 2 s +:+ ","
        +:+ Fmt.d0 3 ms
    /\ 0 <= h /\ 0 <= m < 60 /\ 0 <= s < 60 /\ 0 <= ms < 1000
    /\ h * 3600000 + m * 60000 + s * 1000 + ms
       = GoNum.int_of_float64 (PrimFloat.mul seconds 1000%float)
    /\ (GoNum.int_of_float64 (PrimFloat.mul seconds 1000%float) < 360000000
        -> String.length (formatSRTTimestamp seconds) = 12%nat).
Proof.
  intros Hpos. unfold formatSRTTimestamp.
  set (totalMs := GoNum.int_of_float64 (PrimFloat.mul seconds 1000%float)) in *.
  cbv zeta.
  set (h := Z.quot totalMs 3600000).
  set (m := Z.quot (Z.rem totalMs 3600000) 60000).
  set (s := Z.quot (Z.rem totalMs 60000) 1000).
  set (ms := Z.rem totalMs 1000).
  assert (Hh : 0 <= h) by (subst h; Z.to_euclidean_division_equations; lia).
  assert (Hm : 0 <= m < 60)
    by (subst m; Z.to_euclidean_division_equations; lia).
  assert (Hs : 0 <= s < 60)
    by (subst s; Z.to_euclidean_division_equations; lia).
  assert (Hms : 0 <= ms < 1000)
    by (subst ms; Z.to_euclidean_division_equations; lia).
  assert (Hsum : h * 3600000 + m * 60000 + s * 1000 + ms = totalMs)
    by (subst h m s ms; Z.to_euclidean_division_equations; lia).
  exists h, m, s, ms. repeat split; try lia.
  intros Hsmall.
  assert (h < 100) by (subst h; Z.to_euclidean_division_equations; lia).
  rewrite !length_app_s, !d0_2_length, d0_3_length by lia. reflexivity.
Qed.

Lemma formatSRTTimestamp_fields_witness :
  String.length (formatSRTTimestamp 3599.5%float) = 12%nat.
Proof.
  destruct (formatSRTTimestamp_fields 3599.5%float) as
    [h [m [s [ms [_ [_ [_ [_ [_ [_ Hlen]]]]]]]]]].
  - vm_compute. discriminate.
  - apply Hlen. vm_compute. reflexivity.
Defined.

(** The LRC timestamp of a time that is not negative has no hour field:
    the minutes are not bounded, the seconds are below 60 and the
    hundredths below 100; the hundredths are cut, not rounded, so that the
    fields stand for a time at most 9 milliseconds before the given one;
    below 100 minutes the timestamp is 8 bytes long. *)
Theorem formatLRCTimestamp_fields (seconds : float) :
  0 <= GoNum.int_of_float64 (PrimFloat.mul seconds 1000%float) ->
  exists m s c,
    formatLRCTimestamp seconds
    = Fmt.d0 2 m +:+ ":" +:+ Fmt.d0 2 s +:+ "." +:+ Fmt.d0 2 c
    /\ 0 <= m /\ 0 <= s < 60 /\ 0 <= c < 100
    /\ m * 60000 + s * 1000 + c * 10
       <= GoNum.int_of_float64 (PrimFloat.mul seconds 1000%float)
       < m * 60000 + s * 1000 + c * 10 + 10
    /\ (GoNum.int_of_float64 (PrimFloat.mul seconds 1000%float) < 6000000
        -> String.length (formatLRCTimestamp seconds) = 8%nat).
Proof.
  intros Hpos. unfold formatLRCTimestamp.
  set (totalMs := GoNum.int_of_float64 (PrimFloat.mul seconds 1000%float)) in *.
  cbv zeta.
  set (m := Z.quot totalMs 60000).
  set (s := Z.quot (Z.rem totalMs 60000) 1000).
  set (c := Z.quot (Z.rem totalMs 1000) 10).
  assert (Hm : 0 <= m) by (subst m; Z.to_euclidean_division_equations; lia).
  assert (Hs : 0 <= s < 60)
    by (subst s; Z.to_euclidean_division_equations; lia).
  assert (Hc : 0 <= c < 100)
    by (subst c; Z.to_euclidean_division_equations; lia).
  assert (Hsum : m * 60000 + s * 1000 + c * 10 <= totalMs
                 < m * 60000 + s * 1000 + c * 10 + 10)
    by (subst m s c; Z.to_euclidean_division_equations; lia).
  exists m, s, c. repeat split; try lia.
  intros Hsmall.
  assert (m < 100) by (subst m; Z.to_euclidean_division_equations; lia).
  rewrite !length_app_s, !d0_2_length by lia. reflexivity.
Qed.

Lemma formatLRCTimestamp_fields_witness :
  String.length (formatLRCTimestamp 59.5%float) = 8%nat.
Proof.
  destruct (formatLRCTimestamp_fields 59.5%float) as
    [m [s [c [_ [_ [_ [_ [_ Hlen]]]]]]]].
  - vm_compute. discriminate.
  - apply Hlen. vm_compute. reflexivity.
Defined.






End TimestampFacts.

(** ** The events of a batch *)

Section AlphabetFacts.
Import GoStrings Env Input Progress Cmd Spec Effects.

Lemma client_do_alphabet (w : World) (via : list string) (url : string)
    (st : State) (P : Event -> Prop) :
  (forall u, P (EvGet u)) ->
  exists evs,
    trace (client_do w via url st).1 = (trace st ++ evs)%list
    /\ Forall P evs.
Proof.
  intros HP. destruct (client_do_effects w via url st) as [_ [urls Hu]].
  exists (map EvGet urls). split; [exact Hu|].
  apply List.Forall_map, Forall_forall. auto.
Qed.

Lemma downloadDirect_alphabet (w : World) (url : string) (st : State)
    (P : Event -> Prop) :
  (forall u, P (EvGet u)) -> (forall p, P (EvCreateTemp p)) ->
  (forall p, P (EvCopyBody p)) -> (forall p, P (EvRemove p)) ->
  exists evs,
    trace (downloadDirect w url st).1 = (trace st ++ evs)%list
    /\ Forall P evs
    /\ Forall P (call_events (downloadDirect w url st).2.1.2).
Proof.
  intros Hget Hmk Hcp Hrm. unfold downloadDirect, client_Get.
  destruct (client_do_alphabet w [] url st P Hget) as [gets [Hu Hg]].
  destruct (client_do w [] url st) as [st1 got]. simpl in Hu.
  destruct got as [resp|err];
    [|exists gets; simpl; auto].
  destruct (negb (StatusCode resp =? 200)); [exists gets; simpl; auto|].
  destruct (HasPrefix (ContentType resp) "text/html");
    [exists gets; simpl; auto|].
  destruct (CreateTemp w _ st1) as [st2 [tmpPath|err]] eqn:Hc.
  - apply CreateTemp_made in Hc as [_ ->].
    destruct (CopyBody w _ tmpPath); simpl.
    + exists (gets ++ [EvCreateTemp tmpPath; EvCopyBody tmpPath;
                       EvRemove tmpPath])%list.
      rewrite Hu, <- !app_assoc. simpl. split; [reflexivity|].
      split; [|constructor]. apply Forall_app. split; [exact Hg|].
      repeat constructor; auto.
    + exists (gets ++ [EvCreateTemp tmpPath; EvCopyBody tmpPath])%list.
      rewrite Hu, <- !app_assoc. simpl. split; [reflexivity|].
      split; [|repeat constructor; auto].
      apply Forall_app. split; [exact Hg|]. repeat constructor; auto.
  - apply CreateTemp_failed in Hc as ->. exists gets. simpl. auto.
Qed.

Lemma downloadWithYtDlp_alphabet (w : World) (url : string) (st : State)
    (P : Event -> Prop) :
  (forall p, P (EvMkdirTemp p)) -> (forall p, P (EvRemoveAll p)) ->
  (forall dir,
     P (EvRun (ytdlp_args (Filepath.Join [dir; "audio.%(ext)s"]) url))) ->
  exists evs,
    trace (downloadWithYtDlp w url st).1 = (trace st ++ evs)%list
    /\ Forall P evs
    /\ Forall P (call_events (downloadWithYtDlp w url st).2.1.2).
Proof.
  intros Hmk Hrm Hrun. unfold downloadWithYtDlp.
  destruct (negb (LookPath w st "yt-dlp")).
  { exists []. simpl. rewrite app_nil_r. auto. }
  destruct (MkdirTemp w _ st) as [st1 [tmpDir|err]] eqn:Hm.
  - apply MkdirTemp_made in Hm as [_ ->].
    set (argv := ytdlp_args _ url).
    assert (Hargv : P (EvRun argv)) by apply Hrun.
    destruct (CombinedOutput w _ _) as [output [cause|]].
    + exists [EvMkdirTemp tmpDir; EvRun argv; EvRemoveAll tmpDir]. simpl.
      rewrite <- !app_assoc. simpl. split; [reflexivity|].
      split; repeat constructor; auto.
    + destruct (Glob w _ _) as [files err].
      destruct (bool_decide (err <> None) || (length files =? 0)%nat); simpl.
      * exists [EvMkdirTemp tmpDir; EvRun argv; EvRemoveAll tmpDir].
        rewrite <- !app_assoc. simpl. split; [reflexivity|].
        split; repeat constructor; auto.
      * exists [EvMkdirTemp tmpDir; EvRun argv].
        rewrite <- !app_assoc. simpl. split; [reflexivity|].
        split; repeat constructor; auto.
  - apply MkdirTemp_failed in Hm as ->.
    exists []. simpl. rewrite app_nil_r. auto.
Qed.

Lemma resolveLocalFile_alphabet (w : World) (path : string) (st : State)
    (P : Event -> Prop) :
  exists evs,
    trace (resolveLocalFile w path st).1 = (trace st ++ evs)%list
    /\ Forall P evs
    /\ Forall P (call_events (resolveLocalFile w path st).2.1.2).
Proof.
  exists []. rewrite app_nil_r. unfold resolveLocalFile.
  destruct (Stat w st path) as [[|]| |]; simpl; auto.
  destruct (negb _); simpl; auto.
Qed.

Lemma Resolve_alphabet (w : World) (flags : Flags) (format : string)
    (arg : string) (st : State) (P : Event -> Prop) :
  covers flags format arg P ->
  exists evs,
    trace (Resolve w (useYtDlp flags) arg st).1 = (trace st ++ evs)%list
    /\ Forall P evs
    /\ Forall P (call_events (Resolve w (useYtDlp flags) arg st).2.1.2).
Proof.
  intros (Hget & Hmk & Hcp & Hrm & Hyt & _).
  unfold Resolve, resolveURL.
  destruct (isURL arg) eqn:Hurl; [|apply resolveLocalFile_alphabet].
  destruct (useYtDlp flags) eqn:Hflag; simpl;
    [|now apply downloadDirect_alphabet].
  destruct (isYouTubeURL arg) eqn:Hvideo;
    [|now apply downloadDirect_alphabet].
  destruct (Hyt eq_refl eq_refl eq_refl) as (H1 & H2 & H3).
  now apply downloadWithYtDlp_alphabet.
Qed.

Ltac all_events :=
  repeat first [ assumption
               | apply List.Forall_nil
               | apply List.Forall_cons
               | apply Forall_app; split ];
  auto.

Lemma call_trace (cleanup : option Cleanup) (st : State) :
  trace (call cleanup st) = (trace st ++ call_events cleanup)%list.
Proof.
  destruct cleanup as [[p|d]|]; simpl;
    [reflexivity|reflexivity|now rewrite app_nil_r].
Qed.

(** The events of one turn of the loop are among those that [covers]
    lists. *)
Lemma processItem_alphabet (w : World) (flags : Flags) (format : string)
    (i : Z) (arg : string) (l : Loop) (P : Event -> Prop) :
  covers flags format arg P ->
  exists new,
    trace (env (processItem w flags format i arg l))
    = (trace (env l) ++ new)%list
    /\ Forall P new.
Proof.
  intros Hcov.
  destruct (Resolve_alphabet w flags format arg (env l) P Hcov)
    as [evs [Htr [Hevs Hcall]]].
  destruct Hcov as (_ & _ & _ & _ & _ & Htrans & Hdir & Hwrite & Herr & Hok).
  unfold processItem.
  destruct (Resolve w (useYtDlp flags) arg (env l))
    as [st [[audioPath cleanup] err]].
  simpl in Htr, Hcall.
  fold (effectivePrompt flags).
  destruct err as [err|].
  { exists (evs ++ [EvTrackerError arg (Error_string err)])%list. simpl.
    rewrite Htr, <- app_assoc. split; [reflexivity|].
    apply Forall_app. split; [exact Hevs|]. repeat constructor. apply Herr. }
  destruct (Transcribe w st audioPath _ _) as [result|terr].
  2:{ exists (evs ++ [EvTranscribe audioPath (language flags)
                        (effectivePrompt flags)]
              ++ call_events cleanup ++ [EvTrackerError arg terr])%list.
      simpl. rewrite call_trace. simpl. rewrite Htr, <- !app_assoc.
      split; [reflexivity|].
      all_events. }
  destruct (MkdirAll w _ _) as [merr|].
  { eexists (evs ++ [EvTranscribe audioPath (language flags)
                       (effectivePrompt flags); EvMkdirAll _]
             ++ call_events cleanup ++ [EvTrackerError arg merr])%list.
    simpl. rewrite call_trace. simpl. rewrite Htr, <- !app_assoc.
    split; [reflexivity|].
    all_events. }
  destruct (WriteFile w _ _ _) as [werr|].
  { eexists (evs ++ [EvTranscribe audioPath (language flags)
                       (effectivePrompt flags); EvMkdirAll _;
                     EvWriteFile _ _]
             ++ call_events cleanup ++ [EvTrackerError arg werr])%list.
    simpl. rewrite call_trace. simpl. rewrite Htr, <- !app_assoc.
    split; [reflexivity|].
    all_events. }
  eexists (evs ++ [EvTranscribe audioPath (language flags)
                     (effectivePrompt flags); EvMkdirAll _;
                   EvWriteFile _ _]
           ++ call_events cleanup ++ [EvTrackerComplete arg _])%list.
  simpl. rewrite call_trace. simpl. rewrite Htr, <- !app_assoc.
  split; [reflexivity|].
  all_events.
Qed.

Lemma loop_alphabet (w : World) (flags : Flags) (format : string)
    (args : list string) (i : Z) (l : Loop) (P : Event -> Prop) :
  (forall arg, arg ∈ args -> covers flags format arg P) ->
  exists new,
    trace (env (loop w flags format i args l)) = (trace (env l) ++ new)%list
    /\ Forall P new.
Proof.
  revert i l. induction args as [|arg rest IH]; intros i l Hcov.
  { exists []. simpl. rewrite app_nil_r. auto. }
  simpl.
  destruct (processItem_alphabet w flags format i arg l P) as [n1 [T1 F1]].
  { apply Hcov. apply elem_of_cons. now left. }
  destruct (IH (i + 1) (processItem w flags format i arg l)) as [n2 [T2 F2]].
  { intros a Ha. apply Hcov. apply elem_of_cons. now right. }
  exists (n1 ++ n2)%list. rewrite T2, T1, <- app_assoc.
  split; [reflexivity|]. now apply Forall_app.
Qed.

(** All that [runExtract] does is done in its loop. *)
Lemma runExtract_alphabet (w : World) (flags : Flags) (args : list string)
    (st : State) (P : Event -> Prop) :
  (forall arg, arg ∈ args ->
     covers flags (ToLower (outputFormat flags)) arg P) ->
  exists new,
    trace (after (runExtract w flags args st)) = (trace st ++ new)%list
    /\ Forall P new.
Proof.
  intros Hcov. unfold runExtract.
  destruct (String.eqb _ "").
  { exists []. simpl. rewrite app_nil_r. auto. }
  destruct (negb _ && negb _).
  { exists []. simpl. rewrite app_nil_r. auto. }
  set (l0 := {| env := st; tracker := _; errors := [] |}).
  destruct (loop_alphabet w flags (ToLower (outputFormat flags)) args 0 l0 P
              Hcov) as [new [T F]].
  exists new.
  destruct (Stop _) as [tr|]; [destruct (Stop tr)|]; simpl; auto.
Qed.

End AlphabetFacts.

(** ** Video URLs *)

Section VideoPatterns.
Import GoStrings Input.

Lemma prefix_iff (p s : string) :
  String.prefix p s = true <-> exists b, s = p +:+ b.
Proof.
  revert s. induction p as [|c p IH]; intros s.
  - rewrite string_prefix_nil. split; [intros _; now exists s|reflexivity].
  - destruct s as [|d s]; simpl.
    + split; [discriminate|]. intros [b Hb]. discriminate.
    + destruct (ascii_dec c d) as [->|Hcd].
      * rewrite IH. split; intros [b Hb]; exists b.
        -- now rewrite Hb.
        -- now injection Hb.
      * split; [discriminate|]. intros [b Hb]. injection Hb as Hc _.
        now subst.
Qed.

(** [strings.Contains]: the substring may stand anywhere. *)
Lemma Contains_iff (s p : string) :
  Contains s p = true <-> exists a b, s = a +:+ p +:+ b.
Proof.
  induction s as [|c s IH].
  - cbn [Contains]. rewrite orb_false_r. rewrite prefix_iff. split.
    + intros [b Hb]. now exists "", b.
    + intros [a [b Hab]]. destruct a; [now exists b|discriminate].
  - cbn [Contains]. rewrite orb_true_iff, IH, prefix_iff. split.
    + intros [[b Hb]|[a [b Hab]]]; [now exists "", b|].
      exists (String c a), b. now rewrite Hab.
    + intros [[|d a] [b Hab]]; [left; now exists b|].
      right. exists a, b. now injection Hab.
Qed.

(** A URL is taken for a video of YouTube exactly when one of the first
    four patterns occurs somewhere in it, be it in the host, the path or
    the query; the fifth pattern, of YouTube Music, adds nothing, as it
    holds the first. *)
Theorem isYouTubeURL_anywhere (url : string) :
  (isYouTubeURL url = true
   <-> exists a pattern b,
         pattern ∈ [ "youtube.com/watch"; "youtu.be/"; "youtube.com/shorts/";
                     "youtube.com/live/" ]
         /\ url = a +:+ pattern +:+ b)
  /\ (Contains url "music.youtube.com/watch" = true ->
      Contains url "youtube.com/watch" = true)
  /\ forall a b, isYouTubeURL (a +:+ "youtu.be/" +:+ b) = true.
Proof.
  assert (Hfifth : Contains url "music.youtube.com/watch" = true ->
                   Contains url "youtube.com/watch" = true).
  { rewrite !Contains_iff. intros [a [b ->]].
    exists (a +:+ "music."), b.
    now rewrite app_assoc_s. }
  split; [|split; [exact Hfifth|]].
  - unfold isYouTubeURL, ytPatterns. cbn [existsb].
    rewrite orb_false_r, !orb_true_iff. split.
    + intros H.
      assert (H' : Contains url "youtube.com/watch" = true
                   \/ Contains url "youtu.be/" = true
                   \/ Contains url "youtube.com/shorts/" = true
                   \/ Contains url "youtube.com/live/" = true)
        by (destruct H as [H|[H|[H|[H|H]]]]; auto).
      clear H.
      destruct H' as [H|[H|[H|H]]]; apply Contains_iff in H as [a [b ->]].
      * exists a, "youtube.com/watch", b. split; [|reflexivity].
        rewrite !elem_of_cons. auto.
      * exists a, "youtu.be/", b. split; [|reflexivity].
        rewrite !elem_of_cons. auto.
      * exists a, "youtube.com/shorts/", b. split; [|reflexivity].
        rewrite !elem_of_cons. auto.
      * exists a, "youtube.com/live/", b. split; [|reflexivity].
        rewrite !elem_of_cons. auto.
    + intros [a [pattern [b [Hin ->]]]].
      rewrite !elem_of_cons, elem_of_nil in Hin.
      destruct Hin as [->|[->|[->|[->|[]]]]].
      * left. apply Contains_iff. now exists a, b.
      * right; left. apply Contains_iff. now exists a, b.
      * right; right; left. apply Contains_iff. now exists a, b.
      * right; right; right; left. apply Contains_iff. now exists a, b.
  - intros a b. unfold isYouTubeURL, ytPatterns. cbn [existsb].
    assert (Contains (a +:+ "youtu.be/" +:+ b) "youtu.be/" = true) as ->
      by (apply Contains_iff; now exists a, b).
    now rewrite orb_true_r.
Qed.

End VideoPatterns.

(** ** What a batch does and does not do *)

Section BatchEffects.
Import GoStrings Env Input Progress Cmd Spec Effects.

Lemma effectivePrompt_not_empty (flags : Flags) : effectivePrompt flags <> "".
Proof.
  unfold effectivePrompt.
  destruct (String.eqb_spec (prompt flags) ""); [discriminate|assumption].
Qed.

(** Whatever the flags, the inputs and the environment, every transcription
    that [runExtract] asks for carries the language of the flags as it is
    and a prompt that is not empty: the prompt of the flags, or the default
    prompt when that is empty. *)
Theorem transcriptions_as_configured (w : World) (flags : Flags)
    (args : list string) (st : State) :
  exists new,
    trace (after (runExtract w flags args st)) = (trace st ++ new)%list
    /\ Forall (transcribed_as_configured flags) new.
Proof.
  apply runExtract_alphabet. intros arg _.
  unfold covers, transcribed_as_configured.
  repeat split; auto using effectivePrompt_not_empty.
Qed.

(** A command is run only under the yt-dlp flag, and then it is yt-dlp with
    the fixed options, for an argument that is a URL holding one of the
    video patterns; without the flag no command is run and no temporary
    directory is made or removed, even for such a URL. *)
Theorem subprocess_only_for_video_urls (w : World) (flags : Flags)
    (args : list string) (st : State) :
  exists new,
    trace (after (runExtract w flags args st)) = (trace st ++ new)%list
    /\ Forall (subprocess_allowed flags args) new.
Proof.
  apply runExtract_alphabet. intros arg Harg.
  unfold covers, subprocess_allowed.
  repeat split; auto.
  exists dir, arg. unfold ytdlp_args. auto.
Qed.

(** The only file that [runExtract] writes for an argument, and the only
    directory it makes for it, are the output path of this argument and
    the directory of this path. *)
Theorem files_written_are_outputs (w : World) (flags : Flags)
    (args : list string) (st : State) :
  exists new,
    trace (after (runExtract w flags args st)) = (trace st ++ new)%list
    /\ Forall (written_to_outputs flags (ToLower (outputFormat flags)) args)
              new.
Proof.
  apply runExtract_alphabet. intros arg Harg.
  unfold covers, written_to_outputs.
  repeat split; eauto.
Qed.

(** Without a credential, or with a format that is neither lrc nor srt once
    lowered, [runExtract] returns the error of the case at once, the
    missing credential first: nothing is requested, made, written or
    removed, no tracker is made, and the process exits with status 1.  The
    flag has precedence over the environment variable. *)
Theorem configuration_is_checked_first (w : World) (flags : Flags)
    (args : list string) (st : State) :
  let key := if String.eqb (apiKey flags) ""
             then Getenv w "OPENAI_API_KEY" else apiKey flags in
  let format := ToLower (outputFormat flags) in
  let r := runExtract w flags args st in
  (key = "" \/ (format <> "lrc" /\ format <> "srt") ->
   after r = st /\ failed r = [] /\ shown r = None /\ summary r = []
   /\ exit_status (outcome r) = 1)
  /\ (key = "" ->
      outcome r
      = Returned (Some "OpenAI API key required. Set --api-key or OPENAI_API_KEY environment variable"))
  /\ (key <> "" -> format <> "lrc" -> format <> "srt" ->
      outcome r
      = Returned (Some ("invalid output format: " +:+ format
                          +:+ ". Use 'lrc' or 'srt'")))
  /\ (apiKey flags <> "" -> key = apiKey flags).
Proof.
  intros key format r. subst r. unfold runExtract. fold key. fold format.
  destruct (String.eqb_spec key "") as [Hk|Hk].
  { repeat split; try reflexivity; try contradiction.
    intros Hflag. subst key.
    destruct (String.eqb_spec (apiKey flags) ""); [contradiction|reflexivity]. }
  destruct (String.eqb_spec format "lrc") as [Hl|Hl];
    destruct (String.eqb_spec format "srt") as [Hs|Hs]; simpl.
  all: repeat split; try reflexivity; try contradiction; try tauto.
  all: try (intros Hflag; subst key;
            destruct (String.eqb_spec (apiKey flags) "");
            [contradiction|reflexivity]).
Qed.

End BatchEffects.

(** ** Temporary files and the tracker after a batch *)

Section TemporaryFiles.
Import GoStrings Env Input Progress Cmd Spec Effects.

Lemma downloadDirect_success (w : World) (url : string) (st : State) :
  (downloadDirect w url st).2.2 = None ->
  exists tmpPath,
    (downloadDirect w url st).2.1 = (tmpPath, Some (RemoveFile tmpPath))
    /\ (tmpPath ∉ temps st)
    /\ temps (downloadDirect w url st).1 = {[tmpPath]} ∪ temps st.
Proof.
  unfold downloadDirect.
  destruct (client_Get w url st) as [st1 got] eqn:Hget.
  apply client_Get_effects in Hget as [Ht _].
  destruct got as [resp|err]; [|discriminate].
  destruct (negb (StatusCode resp =? 200)); [discriminate|].
  destruct (HasPrefix (ContentType resp) "text/html"); [discriminate|].
  destruct (CreateTemp w _ st1) as [st2 [tmpPath|err]] eqn:Hmk;
    [|discriminate].
  apply CreateTemp_made in Hmk as [Hnew ->].
  destruct (CopyBody w _ tmpPath); [discriminate|]. intros _.
  exists tmpPath. simpl. rewrite <- Ht. auto.
Qed.

Lemma downloadWithYtDlp_success (w : World) (url : string) (st : State) :
  (downloadWithYtDlp w url st).2.2 = None ->
  exists tmpDir,
    (downloadWithYtDlp w url st).2.1.2 = Some (RemoveDir tmpDir)
    /\ (tmpDir ∉ temps st)
    /\ temps (downloadWithYtDlp w url st).1 = {[tmpDir]} ∪ temps st.
Proof.
  unfold downloadWithYtDlp.
  destruct (negb (LookPath w st "yt-dlp")); [discriminate|].
  destruct (MkdirTemp w _ st) as [st1 [tmpDir|err]] eqn:Hmk; [|discriminate].
  apply MkdirTemp_made in Hmk as [Hnew ->].
  destruct (CombinedOutput w _ _) as [output [cause|]]; [discriminate|].
  destruct (Glob w _ _) as [files err].
  destruct (bool_decide (err <> None) || (length files =? 0)%nat);
    [discriminate|].
  intros _. exists tmpDir. simpl. auto.
Qed.

(** The cleanup of a resolution that succeeded takes away what the
    resolution has put among the temporary files and directories. *)
Lemma Resolve_undone (w : World) (useYtDlp : bool) (input : string)
    (st : State) :
  (Resolve w useYtDlp input st).2.2 = None ->
  forall s, temps s = temps (Resolve w useYtDlp input st).1 ->
    temps (call (Resolve w useYtDlp input st).2.1.2 s) = temps st.
Proof.
  unfold Resolve, resolveURL.
  destruct (isURL input);
    [destruct (useYtDlp && isYouTubeURL input)|].
  - intros Hok s Hs.
    destruct (downloadWithYtDlp_success w input st Hok)
      as [tmpDir [-> [Hnew Ht]]].
    simpl. rewrite Hs, Ht. now apply made_then_removed.
  - intros Hok s Hs.
    destruct (downloadDirect_success w input st Hok)
      as [tmpPath [Hr [Hnew Ht]]].
    rewrite Hr. simpl. rewrite Hs, Ht. now apply made_then_removed.
  - unfold resolveLocalFile.
    destruct (Stat w st input) as [[|]| |]; try discriminate.
    destruct (negb _); [discriminate|]. simpl. auto.
Qed.

Lemma Resolve_failed (w : World) (useYtDlp : bool) (input : string)
    (st : State) (e : Input.Error) :
  (Resolve w useYtDlp input st).2.2 = Some e ->
  temps (Resolve w useYtDlp input st).1 = temps st.
Proof.
  intros H.
  assert (C : clean_failure st (Resolve w useYtDlp input st).1
                            (Resolve w useYtDlp input st).2).
  { unfold Resolve, resolveURL.
    destruct (isURL input);
      [destruct (useYtDlp && isYouTubeURL input)|];
      auto using resolveLocalFile_failure, downloadDirect_failure,
                 downloadWithYtDlp_failure. }
  now destruct (C e H) as [_ [_ Ht]].
Qed.

Lemma processItem_temps (w : World) (flags : Flags) (format : string)
    (i : Z) (arg : string) (l : Loop) :
  temps (env (processItem w flags format i arg l)) = temps (env l).
Proof.
  pose proof (Resolve_undone w (useYtDlp flags) arg (env l)) as Hok.
  pose proof (Resolve_failed w (useYtDlp flags) arg (env l)) as Hfail.
  unfold processItem.
  destruct (Resolve w (useYtDlp flags) arg (env l))
    as [st [[audioPath cleanup] err]].
  simpl in Hok, Hfail.
  destruct err as [err|]; [exact (Hfail err eq_refl)|].
  specialize (Hok eq_refl).
  destruct (Transcribe w st audioPath _ _) as [result|terr];
    [|now apply Hok].
  destruct (MkdirAll w _ _) as [merr|]; [now apply Hok|].
  destruct (WriteFile w _ _ _) as [werr|]; now apply Hok.
Qed.

Lemma loop_temps (w : World) (flags : Flags) (format : string)
    (args : list string) (i : Z) (l : Loop) :
  temps (env (loop w flags format i args l)) = temps (env l).
Proof.
  revert i l. induction args as [|arg rest IH]; intros i l; [reflexivity|].
  simpl. rewrite IH. apply processItem_temps.
Qed.

(** When [runExtract] is left, the temporary files and directories on disk
    are those that were there when it was entered: every one that was made
    for an input was removed before the next input was taken up, whether
    the input failed or succeeded, and whatever the flags. *)
Theorem no_temporary_left (w : World) (flags : Flags) (args : list string)
    (st : State) :
  temps (after (runExtract w flags args st)) = temps st
  /\ forall format i arg l,
       temps (env (processItem w flags format i arg l)) = temps (env l).
Proof.
  split; [|intros; apply processItem_temps].
  unfold runExtract.
  destruct (String.eqb _ ""); [reflexivity|].
  destruct (negb _ && negb _); [reflexivity|].
  set (l0 := {| env := st; tracker := _; errors := [] |}).
  pose proof (loop_temps w flags (ToLower (outputFormat flags)) args 0 l0)
    as H.
  destruct (Stop _) as [tr|]; [destruct (Stop tr)|]; exact H.
Qed.

End TemporaryFiles.

Section TrackerAgreement.
Import GoStrings Env Input Progress Cmd Spec Effects Examples.

(** What one turn of the loop does to the tracker and to the error list. *)
Lemma processItem_tracker (w : World) (flags : Flags) (format : string)
    (i : Z) (arg : string) (l : Loop) :
  let l' := processItem w flags format i arg l in
  (Progress.errors (tracker l) = Cmd.errors l ->
   Progress.errors (tracker l') = Cmd.errors l')
  /\ (length (completed (tracker l')) + length (Cmd.errors l')
      = S (length (completed (tracker l)) + length (Cmd.errors l)))%nat
  /\ length (printed (tracker l')) = S (length (printed (tracker l)))
  /\ total (tracker l') = total (tracker l)
  /\ current (tracker l') = i + 1
  /\ fileName (tracker l') = Filepath.Base arg.
Proof.
  unfold processItem.
  destruct (Resolve w (useYtDlp flags) arg (env l))
    as [st [[audioPath cleanup] err]].
  destruct err as [err|].
  { simpl. rewrite !length_app. simpl.
    repeat split; try lia; try reflexivity. now intros ->. }
  destruct (Transcribe w st audioPath _ _) as [result|terr].
  2:{ simpl. rewrite !length_app. simpl.
      repeat split; try lia; try reflexivity. now intros ->. }
  destruct (MkdirAll w _ _) as [merr|].
  { simpl. rewrite !length_app. simpl.
    repeat split; try lia; try reflexivity. now intros ->. }
  destruct (WriteFile w _ _ _) as [werr|].
  { simpl. rewrite !length_app. simpl.
    repeat split; try lia; try reflexivity. now intros ->. }
  simpl. rewrite !length_app. simpl.
  repeat split; try lia; try reflexivity. auto.
Qed.

Lemma loop_tracker (w : World) (flags : Flags) (format : string)
    (args : list string) (i : Z) (l : Loop) :
  let l' := loop w flags format i args l in
  (Progress.errors (tracker l) = Cmd.errors l ->
   Progress.errors (tracker l') = Cmd.errors l')
  /\ (length (completed (tracker l')) + length (Cmd.errors l')
      = length args + (length (completed (tracker l))
                       + length (Cmd.errors l)))%nat
  /\ (length (printed (tracker l'))
      = length args + length (printed (tracker l)))%nat
  /\ total (tracker l') = total (tracker l)
  /\ (args <> [] ->
      current (tracker l') = i + Z.of_nat (length args)
      /\ fileName (tracker l') = Filepath.Base (List.last args "")).
Proof.
  revert i l. induction args as [|arg rest IH]; intros i l.
  { simpl. repeat split; auto; congruence. }
  cbn zeta.
  destruct (processItem_tracker w flags format i arg l)
    as (E1 & C1 & P1 & T1 & K1 & N1).
  destruct (IH (i + 1) (processItem w flags format i arg l))
    as (E2 & C2 & P2 & T2 & L2).
  cbn [loop]. repeat split.
  - auto.
  - rewrite C2, C1. simpl. lia.
  - rewrite P2, P1. simpl. lia.
  - now rewrite T2.
  - destruct rest as [|b rest']; [simpl; rewrite K1; lia|].
    destruct L2 as [L2 _]; [discriminate|]. rewrite L2.
    change (length (arg :: b :: rest')) with (S (length (b :: rest'))).
    lia.
  - destruct rest as [|b rest']; [exact N1|].
    destruct L2 as [_ L2]; [discriminate|]. exact L2.
Qed.

(** With a credential and a valid format, the tracker that [runExtract]
    leaves is stopped, its channel closed once; it was made for as many
    files as there are inputs and has printed one line for each and the
    clearing of the progress line; its error list is the error list of
    [runExtract]; its completed entries and its errors are together as
    many as the inputs; and it shows the last input as the current one. *)
Theorem tracker_agrees_with_errors (w : World) (flags : Flags)
    (args : list string) (st : State) :
  (if String.eqb (apiKey flags) "" then Getenv w "OPENAI_API_KEY"
   else apiKey flags) <> "" ->
  (ToLower (outputFormat flags) = "lrc"
   \/ ToLower (outputFormat flags) = "srt") ->
  let r := runExtract w flags args st in
  exists t,
    shown r = Some t
    /\ started t = false /\ done t = ChanClosed
    /\ total t = Z.of_nat (length args)
    /\ Progress.errors t = failed r
    /\ (length (completed t) + length (failed r) = length args)%nat
    /\ length (printed t) = S (length args)
    /\ (args <> [] ->
        current t = Z.of_nat (length args)
        /\ fileName t = Filepath.Base (List.last args "")).
Proof.
  intros Hkey Hfmt r. subst r. unfold runExtract.
  apply String.eqb_neq in Hkey. rewrite Hkey.
  assert (negb (ToLower (outputFormat flags) =? "lrc")%string
          && negb (ToLower (outputFormat flags) =? "srt")%string = false)
    as ->.
  { destruct Hfmt as [->| ->]; reflexivity. }
  set (l0 := {| env := st; tracker := _; errors := [] |}).
  destruct (loop_effects w flags (ToLower (outputFormat flags)) args 0 l0)
    as [new [_ [_ [_ [S D]]]]].
  destruct (loop_tracker w flags (ToLower (outputFormat flags)) args 0 l0)
    as (E & C & P & T & L).
  set (l := loop w flags (ToLower (outputFormat flags)) 0 args l0) in *.
  destruct (Stop_running (tracker l) S D) as [t1 [H1 [D1 [S1 P1]]]].
  rewrite H1, (Stop_stopped t1 S1). simpl.
  assert (Hsame : total t1 = total (tracker l)
                  /\ Progress.errors t1 = Progress.errors (tracker l)
                  /\ completed t1 = completed (tracker l)
                  /\ current t1 = current (tracker l)
                  /\ fileName t1 = fileName (tracker l)).
  { unfold Stop in H1. rewrite S, D in H1. simpl in H1.
    injection H1 as <-. auto. }
  destruct Hsame as (T1 & E1 & C1 & K1 & N1).
  exists t1. repeat split; auto.
  - now rewrite T1, T.
  - rewrite E1. now apply E.
  - rewrite C1, C. simpl. lia.
  - rewrite P1, length_app, P. simpl. lia.
  - rewrite K1. destruct (L H) as [-> _]. lia.
  - rewrite N1. now destruct (L H) as [_ ->].
Qed.

Lemma tracker_agrees_with_errors_witness :
  exists t,
    shown (runExtract music (flags "LRC" "" false) playlist initial) = Some t
    /\ started t = false /\ done t = ChanClosed
    /\ total t = Z.of_nat (length playlist)
    /\ Progress.errors t
       = failed (runExtract music (flags "LRC" "" false) playlist initial)
    /\ (length (completed t)
        + length (failed (runExtract music (flags "LRC" "" false) playlist
                            initial))
        = length playlist)%nat
    /\ length (printed t) = S (length playlist)
    /\ (playlist <> [] ->
        current t = Z.of_nat (length playlist)
        /\ fileName t = Filepath.Base (List.last playlist "")).
Proof.
  apply (tracker_agrees_with_errors music (flags "LRC" "" false) playlist
           initial).
  - simpl. discriminate.
  - left. reflexivity.
Defined.

End TrackerAgreement.

(** ** Requests, saved files and content types *)

Section RequestBound.
Import GoStrings Env Input Progress Cmd Spec Effects.



End RequestBound.

Section DownloadedFile.
Import GoStrings Env Input Progress Cmd Spec Effects Examples.

Lemma supported_lower (ext : string) :
  ext ∈ supported -> ToLower ext = ext.
Proof.
  unfold supported. rewrite !elem_of_cons, elem_of_nil.
  intros [->|[->|[->|[->|[->|[->|[->|[]]]]]]]]; reflexivity.
Qed.

(** When the walk over the supported extensions visits each of them, the
    file that a download saves is one that the tool accepts as a local
    input: its extension is a supported one, whatever the server said of
    the type, so that the saved path passes the check of
    [resolveLocalFile] wherever it is a regular file; it is a new temporary
    file, and the cleanup that is returned removes this very file. *)
Theorem downloaded_file_is_accepted (w : World) (url : string)
    (st st' : State) (tmpPath : string) (cleanup : option Cleanup) :
  (forall s, RangeOrder w s ≡ₚ supported) ->
  downloadDirect w url st = (st', (tmpPath, cleanup, None)) ->
  index_bool supportedExtensions (ToLower (Filepath.Ext tmpPath)) = true
  /\ (forall w' s, Stat w' s tmpPath = StatInfo false ->
        resolveLocalFile w' tmpPath s = (s, (tmpPath, None, None)))
  /\ cleanup = Some (RemoveFile tmpPath)
  /\ (tmpPath ∉ temps st)
  /\ temps st' = {[tmpPath]} ∪ temps st.
Proof.
  intros Horder Hdl.
  destruct (downloadDirect_extension w url st st' tmpPath cleanup Horder Hdl)
    as [st1 [resp [_ Hext]]].
  assert (Hsup : index_bool supportedExtensions
                   (ToLower (Filepath.Ext tmpPath)) = true).
  { rewrite Hext.
    pose proof (getAudioExtension_supported (RangeOrder w st1) resp
                  (Horder st1)) as Hin.
    rewrite (supported_lower _ Hin). apply supported_iff. exact Hin. }
  split; [exact Hsup|]. split.
  { intros w' s Hstat. unfold resolveLocalFile. rewrite Hstat, Hsup.
    reflexivity. }
  revert Hdl. unfold downloadDirect.
  destruct (client_Get w url st) as [st2 got] eqn:Hget.
  apply client_Get_effects in Hget as [Ht _].
  destruct got as [r|err]; [|discriminate].
  destruct (negb (StatusCode r =? 200)); [discriminate|].
  destruct (HasPrefix (ContentType r) "text/html"); [discriminate|].
  destruct (CreateTemp w _ st2) as [st3 [p|err]] eqn:Hmk; [|discriminate].
  apply CreateTemp_made in Hmk as [Hnew ->].
  destruct (CopyBody w _ p); [discriminate|].
  intros H. injection H as <- <- <-. simpl. rewrite <- Ht. auto.
Qed.

Lemma downloaded_file_is_accepted_witness :
  index_bool supportedExtensions
    (ToLower (Filepath.Ext "/tmp/whisper-lrc-1234567890.mp3")) = true.
Proof.
  eapply (proj1 (downloaded_file_is_accepted
                   (cdn None (inl (rick "" "en")))
                   "https://cdn.example.com/hop/song" initial
                   (downloadDirect (cdn None (inl (rick "" "en")))
                      "https://cdn.example.com/hop/song" initial).1
                   "/tmp/whisper-lrc-1234567890.mp3"
                   (Some (RemoveFile "/tmp/whisper-lrc-1234567890.mp3"))
                   (fun _ => reflexivity _) _)).
  Unshelve.
  apply injective_projections; [reflexivity|vm_compute; reflexivity].
Defined.

End DownloadedFile.

Section ContentTypes.
Import GoStrings Env Input Examples.

Lemma prefix_char (c d : ascii) (s : string) :
  String.prefix (String c "") (String d s) = Ascii.eqb c d.
Proof.
  cbn [String.prefix].
  destruct (ascii_dec c d) as [<-|Hne].
  - rewrite Ascii.eqb_refl. now destruct s.
  - symmetry. now apply Ascii.eqb_neq.
Qed.






End ContentTypes.

(** ** Outputs are not inputs *)

Section OutputFiles.
Import GoStrings Filepath Env Cmd Spec.

(** The output path is a directory prefix and a file name that ends in a
    dot and the format. *)
Lemma getOutputPath_shape (input outputDir format : string) :
  format = "lrc" \/ format = "srt" ->
  exists pre name,
    dir_prefix pre /\ has_sep name = false
    /\ getOutputPath input outputDir format
       = pre +:+ name +:+ "." +:+ format.
Proof.
  intros Hfmt. unfold getOutputPath. fold (stem input).
  change (HasPrefix input "http://" || HasPrefix input "https://")
    with (Input.isURL input).
  set (dir := if String.eqb outputDir "" then
                if Input.isURL input then "." else Dir input
              else outputDir).
  assert (Hdir : dir <> "").
  { subst dir. destruct (String.eqb_spec outputDir ""); [|assumption].
    destruct (Input.isURL input); [discriminate|apply Clean_not_nil]. }
  assert (Hjoin : forall f, file_name f ->
            exists pre, dir_prefix pre /\ Join [dir; f] = pre +:+ f
                        /\ Join [dir; "/" +:+ f] = pre +:+ f).
  { intros f Hf.
    destruct (Clean_dir_file dir f Hdir Hf) as [pre [Hpre [_ [H1 H2]]]].
    exists pre. apply String.eqb_neq in Hdir.
    cbn [Join]. rewrite Hdir. auto. }
  destruct (Input.isURL input).
  - set (name := if String.eqb (sanitizeFilename (stem input)) ""
                 then "output" else sanitizeFilename (stem input)).
    assert (Hname : has_sep name = false).
    { subst name.
      destruct (String.eqb (sanitizeFilename (stem input)) "");
        [reflexivity|].
      rewrite sanitizeFilename_underscores. apply underscore_no_sep. }
    destruct (Hjoin _ (file_of_stem name format Hfmt Hname))
      as [pre [Hpre [H1 _]]].
    exists pre, name. auto.
  - destruct (stem_shape input) as [Hs|Hs].
    + rewrite Hs.
      destruct (Hjoin _ (file_of_stem "" format Hfmt eq_refl))
        as [pre [Hpre [_ H2]]].
      exists pre, "". auto.
    + destruct (Hjoin _ (file_of_stem _ format Hfmt Hs))
        as [pre [Hpre [H1 _]]].
      exists pre, (stem input). auto.
Qed.

Lemma ext_from_format (format : string) :
  format = "lrc" \/ format = "srt" ->
  forall cur, ext_from ("." +:+ format) cur = "." +:+ format.
Proof. intros [->| ->] cur; reflexivity. Qed.

(** The path that is written for an input ends in a dot and the format, lrc
    or srt, and has this as its extension, wherever the input and the
    output directory lead; so it is never a path that the tool accepts as
    an audio file: given as an input it is refused, and no accepted local
    input is overwritten by an output. *)
Theorem output_is_never_an_input (input outputDir format : string) :
  format = "lrc" \/ format = "srt" ->
  Ext (getOutputPath input outputDir format) = "." +:+ format
  /\ (forall w st,
        (Input.resolveLocalFile w (getOutputPath input outputDir format)
           st).2.2 <> None)
  /\ (forall w st local,
        (Input.resolveLocalFile w local st).2.2 = None ->
        getOutputPath input outputDir format <> local).
Proof.
  intros Hfmt.
  destruct (getOutputPath_shape input outputDir format Hfmt)
    as [pre [name [_ [_ Hshape]]]].
  assert (Hext : Ext (getOutputPath input outputDir format)
                 = "." +:+ format).
  { rewrite Hshape. unfold Ext.
    rewrite <- (app_assoc_s pre name ("." +:+ format)).
    apply ext_from_app. now apply ext_from_format. }
  assert (Hrefused : forall w st,
            (Input.resolveLocalFile w (getOutputPath input outputDir format)
               st).2.2 <> None).
  { intros w st. unfold Input.resolveLocalFile.
    destruct (Stat w st _) as [[|]| |]; try discriminate.
    rewrite Hext.
    destruct Hfmt as [->| ->]; discriminate. }
  split; [exact Hext|]. split; [exact Hrefused|].
  intros w st local Hok Heq. subst local. now apply (Hrefused w st).
Qed.

Lemma output_is_never_an_input_witness :
  Ext (getOutputPath "music/Song.MP3" "" "srt") = ".srt".
Proof.
  apply (proj1 (output_is_never_an_input "music/Song.MP3" "" "srt"
                  (or_intror eq_refl))).
Defined.

End OutputFiles.

(** ** The transcription request and file names *)

Section ClientFacts.
Import GoStrings Whisper Client Effects.

Lemma form_fields (fileName content language prompt : string) :
  let parts := form fileName content language prompt in
  hd_error parts = Some (FormFile "file" fileName content)
  /\ FormValue "model" parts = Some "whisper-1"
  /\ FormValue "response_format" parts = Some "verbose_json"
  /\ FormValue "timestamp_granularities[]" parts = Some "segment"
  /\ FormValue "language" parts
     = (if String.eqb language "" then None else Some language)
  /\ FormValue "prompt" parts
     = (if String.eqb prompt "" then None else Some prompt)
  /\ NoDup (map part_name parts).
Proof.
  unfold form.
  destruct (String.eqb language ""), (String.eqb prompt "");
    cbn [negb app map part_name];
    repeat split; try reflexivity.
  all: repeat (apply NoDup_cons; split;
               [rewrite ?elem_of_cons, elem_of_nil; intros H;
                repeat (destruct H as [H|H]; [discriminate|]);
                exact H |]);
    apply NoDup_nil; exact I.
Qed.

Lemma effectivePrompt_given (flags : Cmd.Flags) :
  String.eqb (effectivePrompt flags) "" = false.
Proof.
  unfold effectivePrompt.
  destruct (String.eqb_spec (Cmd.prompt flags) ""); [reflexivity|].
  now apply String.eqb_neq.
Qed.

(** When the audio file cannot be opened or read, nothing is sent.  A
    request that is sent is one POST to the API with the key as bearer
    token; its form holds the file under its base name and three fixed
    fields, each part name once; the language field is there exactly when a
    language is given, and the prompt field exactly when the prompt is not
    empty, which it never is for the prompt that [runExtract] passes.  A
    result comes only from a response with status 200 whose body parses. *)
Theorem Transcribe_request (n : Net)
    (apiKey audioPath language prompt : string) :
  let sent := (Transcribe n apiKey audioPath language prompt).1 in
  let got := (Transcribe n apiKey audioPath language prompt).2 in
  (sent = None
   <-> Open n audioPath <> None \/ exists err, Copy n audioPath = inr err)
  /\ (forall req, sent = Some req ->
        Method req = "POST" /\ URL req = apiURL
        /\ Authorization req = "Bearer " +:+ apiKey
        /\ (exists content,
              Copy n audioPath = inl content
              /\ hd_error (Body req)
                 = Some (FormFile "file" (Filepath.Base audioPath) content))
        /\ FormValue "model" (Body req) = Some "whisper-1"
        /\ FormValue "response_format" (Body req) = Some "verbose_json"
        /\ FormValue "timestamp_granularities[]" (Body req) = Some "segment"
        /\ FormValue "language" (Body req)
           = (if String.eqb language "" then None else Some language)
        /\ FormValue "prompt" (Body req)
           = (if String.eqb prompt "" then None else Some prompt)
        /\ NoDup (map part_name (Body req))
        /\ (forall flags, prompt = effectivePrompt flags ->
              FormValue "prompt" (Body req) = Some prompt))
  /\ (forall result, got = inl result ->
        exists req body,
          sent = Some req /\ Do n req = inl (200, inl body)
          /\ Unmarshal n body = inl result).
Proof.
  intros sent got. subst sent got. unfold Transcribe.
  destruct (Open n audioPath) as [oerr|] eqn:Hopen.
  { simpl. split; [split; auto|]. split; [discriminate|discriminate]. }
  destruct (Copy n audioPath) as [content|cerr] eqn:Hcopy.
  2:{ simpl. split; [split; eauto|]. split; [discriminate|discriminate]. }
  destruct (form_fields (Filepath.Base audioPath) content language prompt)
    as (F0 & F1 & F2 & F3 & F4 & F5 & F6).
  set (req := {| Method := "POST"; URL := apiURL;
                 Authorization := "Bearer " +:+ apiKey;
                 ContentType := _; Body := _ |}).
  assert (Hsent : forall r : TranscriptionResult + string,
            (Some req, r).1 = None
            <-> (None : option string) <> None
                \/ exists err, (inl content : string + string) = inr err).
  { intros r. simpl. split; [discriminate|].
    intros [H|[err H]]; [congruence|discriminate]. }
  assert (Hreq : forall (r : TranscriptionResult + string) req0,
            (Some req, r).1 = Some req0 ->
            Method req0 = "POST" /\ URL req0 = apiURL
            /\ Authorization req0 = "Bearer " +:+ apiKey
            /\ (exists content0,
                  (inl content : string + string) = inl content0
                  /\ hd_error (Body req0)
                     = Some (FormFile "file" (Filepath.Base audioPath)
                               content0))
            /\ FormValue "model" (Body req0) = Some "whisper-1"
            /\ FormValue "response_format" (Body req0) = Some "verbose_json"
            /\ FormValue "timestamp_granularities[]" (Body req0)
               = Some "segment"
            /\ FormValue "language" (Body req0)
               = (if String.eqb language "" then None else Some language)
            /\ FormValue "prompt" (Body req0)
               = (if String.eqb prompt "" then None else Some prompt)
            /\ NoDup (map part_name (Body req0))
            /\ (forall flags, prompt = effectivePrompt flags ->
                  FormValue "prompt" (Body req0) = Some prompt)).
  { intros r req0 Hr. injection Hr as <-. subst req. cbn [Method URL
      Authorization Body].
    repeat split; auto.
    - exists content. auto.
    - intros flags Hp. rewrite F5. subst prompt.
      now rewrite effectivePrompt_given. }
  clearbody req.
  destruct (Do n req) as [[status [body|rerr]]|derr] eqn:Hdo.
  - destruct (Z.eqb_spec status 200) as [->|Hs]; cbn [negb].
    + destruct (Unmarshal n body) as [result|perr] eqn:Hun.
      * split; [apply Hsent|]. split; [apply Hreq|].
        intros r Hr. injection Hr as <-. exists req, body. auto.
      * split; [apply Hsent|]. split; [apply Hreq|discriminate].
    + split; [apply Hsent|]. split; [apply Hreq|discriminate].
  - split; [apply Hsent|]. split; [apply Hreq|discriminate].
  - split; [apply Hsent|]. split; [apply Hreq|discriminate].
Qed.

End ClientFacts.

Section SanitizeFacts.
Import GoStrings Filepath Env Spec Cmd.

(** A string holds the byte [c] where [strings.Contains] finds it. *)
Lemma Contains_char (c d : ascii) (s : string) :
  Contains (String d s) (String c "")
  = Ascii.eqb c d || Contains s (String c "").
Proof. cbn [Contains]. now rewrite prefix_char. Qed.

Lemma length_map_chars (f : ascii -> ascii) (s : string) :
  String.length (map_chars f s) = String.length s.
Proof. induction s as [|c s IH]; [reflexivity|]. simpl. now rewrite IH. Qed.

Lemma map_chars_app (f : ascii -> ascii) (a b : string) :
  map_chars f (a +:+ b) = map_chars f a +:+ map_chars f b.
Proof.
  induction a as [|c a IH]; [reflexivity|].
  rewrite app_cons_s. simpl. now rewrite IH.
Qed.

Lemma underscore_twice (c : ascii) : underscore (underscore c) = underscore c.
Proof. destruct c as [[] [] [] [] [] [] [] []]; reflexivity. Qed.

Lemma underscore_valid (c : ascii) :
  existsb (Ascii.eqb (underscore c))
    ["/"; "\"; ":"; "*"; "?"; "034"; "<"; ">"; "|"]%char = false.
Proof. destruct c as [[] [] [] [] [] [] [] []]; reflexivity. Qed.

(** [sanitizeFilename] changes no length and no byte but the nine invalid
    ones; its result holds none of them; so it leaves a name without them
    as it is, and applied twice it does what it does once.  It works byte
    by byte, so that it distributes over concatenation. *)
Theorem sanitizeFilename_is_safe (name : string) :
  String.length (sanitizeFilename name) = String.length name
  /\ (forall char, char ∈ invalid ->
        Contains (sanitizeFilename name) char = false)
  /\ ((forall char, char ∈ invalid -> Contains name char = false) ->
      sanitizeFilename name = name)
  /\ sanitizeFilename (sanitizeFilename name) = sanitizeFilename name
  /\ (forall more,
        sanitizeFilename (name +:+ more)
        = sanitizeFilename name +:+ sanitizeFilename more).
Proof.
  rewrite !sanitizeFilename_underscores.
  split; [apply length_map_chars|]. split; [|split; [|split]].
  - intros char Hin. unfold invalid in Hin.
    induction name as [|d s IH].
    + rewrite !elem_of_cons, elem_of_nil in Hin.
      destruct Hin as [->|[->|[->|[->|[->|[->|[->|[->|[->|[]]]]]]]]]];
        reflexivity.
    + cbn [map_chars].
      pose proof (underscore_valid d) as Hv. cbn [existsb] in Hv.
      repeat (apply orb_false_elim in Hv as [? Hv]).
      rewrite !elem_of_cons, elem_of_nil in Hin.
      destruct Hin as [->|[->|[->|[->|[->|[->|[->|[->|[->|[]]]]]]]]]];
        unfold quote in *; rewrite Contains_char, IH;
        try (rewrite !elem_of_cons; tauto);
        rewrite orb_false_r, Ascii.eqb_sym; assumption.
  - intros Hclean. induction name as [|d s IH]; [reflexivity|].
    cbn [map_chars]. rewrite IH.
    + f_equal. unfold underscore.
      assert (Hd : forall c, String c "" ∈ invalid -> Ascii.eqb d c = false).
      { intros c Hc. specialize (Hclean _ Hc).
        rewrite Contains_char in Hclean.
        apply orb_false_elim in Hclean as [Hcd _].
        now rewrite Ascii.eqb_sym. }
      cbn [existsb].
      rewrite !Hd; [reflexivity|..]; unfold invalid, quote;
        rewrite !elem_of_cons; tauto.
    + intros char Hin. specialize (Hclean _ Hin).
      unfold invalid in Hin. rewrite !elem_of_cons, elem_of_nil in Hin.
      destruct Hin as [->|[->|[->|[->|[->|[->|[->|[->|[->|[]]]]]]]]]];
        unfold quote in *; rewrite Contains_char in Hclean;
        now apply orb_false_elim in Hclean as [_ ?].
  - rewrite map_chars_compose.
    apply map_chars_ext, underscore_twice.
  - intros more. rewrite !sanitizeFilename_underscores.
    apply map_chars_app.
Qed.

End SanitizeFacts.

(** ** The temporary file of the earlier download *)

Section LegacyFacts.
Import GoStrings Env Input Spec.

Lemma http_do_effects (w : World) (via : list string) (url : string)
    (st : State) :
  temps (Legacy.http_do w via url st).1 = temps st
  /\ exists urls,
       trace (Legacy.http_do w via url st).1
       = (trace st ++ map EvGet (url :: urls))%list.
Proof.
  funelim (Legacy.http_do w via url st).
  all: try (split; [reflexivity|]; exists []; reflexivity).
  destruct H as [Ht [urls Hu]]. split; [exact Ht|].
  exists (loc :: urls). rewrite Hu. simpl. now rewrite <- app_assoc.
Qed.

(** The earlier [downloadDirect] makes its temporary file before it asks
    for anything, and asks for nothing when the file cannot be made; the
    file is named as an mp3 file whatever the server sends; the download
    succeeds exactly when the response has status 200 and its body is
    saved, whatever its content type; on every failure the file is removed
    again and neither a path nor a cleanup is returned; on success the path
    is the new file and the cleanup removes it. *)
Theorem legacy_download (w : World) (url : string) (st : State) :
  let r := Legacy.downloadDirect w url st in
  match CreateTemp w "whisper-lrc-*.mp3" st with
  | (_, inr err) => r = (st, failure (ErrCreateTemp err))
  | (st1, inl tmpPath) =>
      Filepath.Ext tmpPath = ".mp3"
      /\ (tmpPath ∉ temps st)
      /\ (r.2.2 = None
          <-> exists st2 resp,
                Legacy.http_Get w url st1 = (st2, inl resp)
                /\ StatusCode resp = 200
                /\ CopyBody w st2 tmpPath = None)
      /\ (exists urls rest,
            trace r.1
            = (trace st ++ EvCreateTemp tmpPath :: map EvGet (url :: urls)
                 ++ rest)%list
            /\ (rest = [] \/ rest = [EvRemove tmpPath]
                \/ rest = [EvCopyBody tmpPath]
                \/ rest = [EvCopyBody tmpPath; EvRemove tmpPath]))
      /\ match r.2.2 with
         | Some _ => r.2.1 = ("", None) /\ temps r.1 = temps st
         | None =>
             r.2.1 = (tmpPath, Some (RemoveFile tmpPath))
             /\ temps r.1 = {[tmpPath]} ∪ temps st
         end
  end.
Proof.
  intros r. subst r. unfold Legacy.downloadDirect.
  destruct (CreateTemp w _ st) as [st1 [tmpPath|err]] eqn:Hmk.
  2:{ apply CreateTemp_failed in Hmk as ->. reflexivity. }
  assert (Hext : Filepath.Ext tmpPath = ".mp3").
  { apply (temp_file_extension w ".mp3" st st1 tmpPath); [|exact Hmk].
    unfold supported. rewrite !elem_of_cons. auto. }
  apply CreateTemp_made in Hmk as [Hnew ->].
  split; [exact Hext|]. split; [exact Hnew|].
  unfold Legacy.http_Get.
  match goal with
  | |- context [Legacy.http_do w [] url ?s] =>
      destruct (http_do_effects w [] url s) as [Ht [urls Hu]];
      destruct (Legacy.http_do w [] url s) as [st2 got]
  end.
  simpl in Ht, Hu.
  destruct got as [resp|err].
  - destruct (Z.eqb_spec (StatusCode resp) 200) as [Hs|Hs]; cbn [negb].
    2:{ simpl. split; [|split].
        - split; [discriminate|].
          intros (s2 & r2 & H & Hs2 & _). congruence.
        - exists urls, [EvRemove tmpPath]. rewrite Hu, <- ?app_assoc. simpl.
          rewrite <- ?app_assoc. auto.
        - rewrite Ht. split; [reflexivity|now apply made_then_removed]. }
    destruct (CopyBody w st2 tmpPath) eqn:Hcp; simpl.
    + split; [|split].
      * split; [discriminate|].
        intros (s2 & r2 & H & _ & Hc2). congruence.
      * exists urls, [EvCopyBody tmpPath; EvRemove tmpPath].
        rewrite Hu, <- ?app_assoc. simpl. rewrite <- ?app_assoc. auto.
      * rewrite Ht. split; [reflexivity|now apply made_then_removed].
    + split; [|split].
      * split; [|reflexivity]. intros _. exists st2, resp. auto.
      * exists urls, [EvCopyBody tmpPath].
        rewrite Hu, <- ?app_assoc. simpl. rewrite <- ?app_assoc. auto.
      * rewrite Ht. auto.
  - simpl. split; [|split].
    + split; [discriminate|]. intros (s2 & r2 & H & _). congruence.
    + exists urls, [EvRemove tmpPath]. rewrite Hu, <- ?app_assoc. simpl.
      rewrite <- ?app_assoc. auto.
    + rewrite Ht. split; [reflexivity|now apply made_then_removed].
Qed.

End LegacyFacts.
